(** * pysimiam: the Khepera3 supervisor and the parameter entries

    A shallow embedding of

    - [supervisors/khepera3.py]: [K3Supervisor.uni2diff], [estimate_pose],
      [execute], [__init__], [get_default_parameters], [get_parameters] and
      [set_parameters];
    - [gui/qt/paramwindow.py]: [ValueEntry], [FloatEntry], [IntEntry],
      [BoolEntry], [ChoiceEntry] and [Group] with their [get_value] and
      [set_value] methods; further on [get_struct], [create_widgets] of
      [Contents], the constructors, [ParamDock] and [DockManager];
    - [scripts/wxrenderer.py]: [wxGCRenderer].

    Conventions.  A Python [float] is idealised as a real number (the
    specification types every pose, velocity and geometry field as "real"):
    rounding is outside the model, except in [Binary64], which gives
    [uni2diff] again on IEEE 754 binary64 numbers to settle whether it is
    the exact inverse of the forward kinematics on the numbers that the
    program computes with.  Encoder ticks are Python [int]s and are
    modelled by [Z].  A Python exception is a value of [exn]; a method that
    mutates [self] maps the object to the new object paired with its
    outcome, so that what an exception leaves behind is part of the model. *)

From Stdlib Require Import Reals Lra Lia ZArith List String Bool.
From Stdlib Require PrimFloat.
Import ListNotations.

Set Implicit Arguments.
#[local] Set Warnings "-register-all".
#[local] Set Warnings "-inexact-float".

(** ** Exceptions and outcomes *)

(** The Python exceptions that the modelled methods raise, and
    [ConfigurationError], the error that the specification gives to a
    rejected wheel geometry.  [KeyError] carries the key that its message
    names. *)
Inductive exn : Type :=
| ZeroDivisionError
| KeyError (key : string)
| ValueError
| IndexError
| TypeError
| AttributeError
| ConfigurationError.

Inductive result (A : Type) : Type :=
| Ok (a : A)
| Raise (e : exn).

Arguments Ok {A} a.
Arguments Raise {A} e.

Definition bind {A B : Type} (m : result A) (f : A -> result B) : result B :=
  match m with
  | Ok a => f a
  | Raise e => Raise e
  end.

Notation "x <- m ;; k" := (bind m (fun x => k))
  (at level 61, m at next level, right associativity).

Open Scope R_scope.

(** Python's [a / b] on floats: [ZeroDivisionError] when the divisor is
    zero. *)
Definition pydiv (a b : R) : result R :=
  if Req_dec_T b 0 then Raise ZeroDivisionError else Ok (a / b).

(** ** The robot and the supervisor *)

Record Pose : Type := mkPose { x : R; y : R; theta : R }.

(** [robot_info.wheels]: the geometry and the current encoder counts. *)
Record Wheels : Type := mkWheels {
  radius : R;
  base_length : R;
  ticks_per_rev : Z;
  wheel_left_ticks : Z;
  wheel_right_ticks : Z
}.

Record RobotInfo : Type := mkRobotInfo { wheels : Wheels }.

Record Goal : Type := mkGoal { goal_x : R; goal_y : R }.
Record Velocity : Type := mkVelocity { velocity_v : R }.
Record Gains : Type := mkGains { kp : R; ki : R; kd : R }.
Record Params : Type := mkParams { goal : Goal; velocity : Velocity; gains : Gains }.

(** The attributes of a [K3Supervisor] that the methods under [src/] read
    or write. *)
Record K3Supervisor : Type := mkK3 {
  pose_est : Pose;
  robot : RobotInfo;
  ui_params : Params;
  left_ticks : Z;
  right_ticks : Z
}.

(** The attributes that the base class [Supervisor] sets up. *)
Record Supervisor : Type := mkSupervisor {
  sup_pose_est : Pose;
  sup_robot : RobotInfo;
  sup_ui_params : Params
}.

Definition get_default_parameters : Params :=
  {| goal := {| goal_x := -5; goal_y := 5 |};
     velocity := {| velocity_v := 2 |};
     gains := {| kp := 1; ki := / 10; kd := 0 |} |}.

(** Modelled from the spec: [Supervisor.__init__], the constructor of the
    base class in [supervisor.py], which is not among the sources.  The
    specification (sections 3, 4.5 and 7) has construction reject a wheel
    geometry with [R <= 0] or [L <= 0] with [ConfigurationError], and
    otherwise store the initial pose, the robot information and the default
    parameters. *)
Definition Supervisor_init (robot_pose : Pose) (robot_info : RobotInfo)
  : result Supervisor :=
  if Rle_dec (radius (wheels robot_info)) 0 then Raise ConfigurationError
  else if Rle_dec (base_length (wheels robot_info)) 0 then Raise ConfigurationError
  else Ok {| sup_pose_est := robot_pose;
             sup_robot := robot_info;
             sup_ui_params := get_default_parameters |}.

(** [K3Supervisor.__init__]: the base constructor runs first, and what it
    raises propagates; then the tick registers are initialised from
    [robot_info.wheels]. *)
Definition K3Supervisor_init (robot_pose : Pose) (robot_info : RobotInfo)
  : result K3Supervisor :=
  base <- Supervisor_init robot_pose robot_info ;;
  Ok {| pose_est := sup_pose_est base;
        robot := sup_robot base;
        ui_params := sup_ui_params base;
        left_ticks := wheel_left_ticks (wheels robot_info);
        right_ticks := wheel_right_ticks (wheels robot_info) |}.

(** [K3Supervisor.uni2diff]:
<<
    vr = (L*w + 2*v)/2/R
    vl = vr - L*w/R
    return (vl, vr)
>> *)
Definition uni2diff (self : K3Supervisor) (uni : R * R) : result (R * R) :=
  let '(v, w) := uni in
  let L := base_length (wheels (robot self)) in
  let Rw := radius (wheels (robot self)) in
  vr <- pydiv ((L * w + 2 * v) / 2) Rw ;;
  q <- pydiv (L * w) Rw ;;
  let vl := vr - q in
  Ok (vl, vr).

(** [K3Supervisor.estimate_pose].  The tick registers are written before
    the divisions are evaluated, so they are updated also when a division
    raises. *)
Definition estimate_pose (self : K3Supervisor) : K3Supervisor * result Pose :=
  let dtl := (wheel_left_ticks (wheels (robot self)) - left_ticks self)%Z in
  let dtr := (wheel_right_ticks (wheels (robot self)) - right_ticks self)%Z in
  let self' :=
    {| pose_est := pose_est self;
       robot := robot self;
       ui_params := ui_params self;
       left_ticks := (left_ticks self + dtl)%Z;
       right_ticks := (right_ticks self + dtr)%Z |} in
  let '(mkPose x0 y0 theta0) := pose_est self in
  let Rw := radius (wheels (robot self)) in
  let L := base_length (wheels (robot self)) in
  (self',
   m_per_tick <- pydiv (2 * PI * Rw) (IZR (ticks_per_rev (wheels (robot self)))) ;;
   let dl := IZR dtl * m_per_tick in
   let dr := IZR dtr * m_per_tick in
   theta_dt <- pydiv (dr - dl) L ;;
   let theta_mid := theta0 + theta_dt / 2 in
   let dst := (dr + dl) / 2 in
   let x_dt := dst * cos theta_mid in
   let y_dt := dst * sin theta_mid in
   let theta_new := theta0 + theta_dt in
   let x_new := x0 + x_dt in
   let y_new := y0 + y_dt in
   Ok (mkPose x_new y_new theta_new)).

(** ** [get_parameters] and [set_parameters] of the supervisor

    Both forward to the base class [Supervisor] and to the go-to-goal
    controller [self.gtg], neither of which is among the sources: they are
    parameters here. *)

Record PidParams : Type := mkPidParams { pid : Params }.

Section SupervisorParameters.
Variable Controller : Type.
Variable Supervisor_get_parameters : K3Supervisor -> Params.
Variable Supervisor_set_parameters :
  Params -> K3Supervisor -> K3Supervisor * result unit.
Variable Controller_set_parameters : Gains -> Controller -> Controller * result unit.

(** [K3Supervisor.get_parameters]:
<<
  params = Struct()
  params.pid = Supervisor.get_parameters(self)
  return params
>> *)
Definition get_parameters (self : K3Supervisor) : PidParams :=
  {| pid := Supervisor_get_parameters self |}.

(** [K3Supervisor.set_parameters]:
<<
  Supervisor.set_parameters(self,params.pid)
  self.gtg.set_parameters(params.pid.gains)
>> *)
Definition set_parameters (params : PidParams) (self : K3Supervisor) (gtg : Controller)
  : (K3Supervisor * Controller) * result unit :=
  let '(self', r) := Supervisor_set_parameters (pid params) self in
  match r with
  | Ok _ =>
      let '(gtg', r') := Controller_set_parameters (gains (pid params)) gtg in
      ((self', gtg'), r')
  | Raise e => ((self', gtg), Raise e)
  end.
End SupervisorParameters.

(** ** [execute] *)

Section Execute.
(** [Supervisor.execute] of the base class, which is not among the sources:
    it returns the unicycle command [(v, w)] of the controller. *)
Variable Supervisor_execute :
  RobotInfo -> R -> K3Supervisor -> K3Supervisor * result (R * R).

(** [K3Supervisor.execute]:
<<
  output = Supervisor.execute(self, robot_info, dt)
  return self.uni2diff(output)
>> *)
Definition execute (robot_info : RobotInfo) (dt : R) (self : K3Supervisor)
  : K3Supervisor * result (R * R) :=
  let '(self', r) := Supervisor_execute robot_info dt self in
  (self', output <- r ;; uni2diff self' output).
End Execute.

(** ** [uni2diff] on binary64 numbers

    A Python [float] is an IEEE 754 binary64 number and every operation of
    [uni2diff] rounds to the nearest one.  Here the method is given again
    on the binary64 numbers of the kernel, operation for operation and in
    the order of the source.  A decimal literal denotes the nearest
    binary64 number, as it does in Python; [2] is the float that Python
    converts the [int] to; [a / b] raises [ZeroDivisionError] on a zero
    divisor of either sign, and [==] is the comparison of IEEE 754. *)
Module Binary64.
Import PrimFloat.

Definition pydiv (a b : float) : result float :=
  if (b =? 0)%float then Raise ZeroDivisionError else Ok (a / b)%float.

(** [K3Supervisor.uni2diff], with [Rw] for [self.robot.wheels.radius] and
    [L] for [self.robot.wheels.base_length]:
<<
    vr = (L*w + 2*v)/2/R
    vl = vr - L*w/R
    return (vl, vr)
>> *)
Definition uni2diff (Rw L : float) (uni : float * float) : result (float * float) :=
  let '(v, w) := uni in
  vr <- pydiv ((L * w + 2 * v) / 2)%float Rw ;;
  q <- pydiv (L * w)%float Rw ;;
  let vl := (vr - q)%float in
  Ok (vl, vr).





End Binary64.

(** ** Qt widgets

    The entries of [paramwindow.py] keep their value in a Qt widget.  Qt is
    an external library; the widgets are modelled by the part of their
    documented behaviour that the entries use.  A spin box keeps its value
    inside [[minimum, maximum]] by bounding what [setValue] receives; the
    rounding of a [QDoubleSpinBox] to its number of decimals is, like all
    float rounding, outside the model, and so is the conversion of a Python
    [int] to the C [int] that a [QSpinBox] takes.  Where a property depends
    on either, its hypotheses keep to the numbers that the widget stores as
    they are given ([two_decimals], [c_int] below). *)

Record QDoubleSpinBox : Type := mkDSpin { dminimum : R; dmaximum : R; dvalue : R }.
Record QSpinBox : Type := mkISpin { iminimum : Z; imaximum : Z; ivalue : Z }.
Record QCheckBox : Type := mkCheck { isChecked : bool }.
Record QRadioButton : Type := mkRadio { text : string; radioChecked : bool }.

(** [QAbstractSpinBoxPrivate::bound]: below the minimum gives the minimum,
    then above the maximum gives the maximum. *)
Definition dbound (lo hi v : R) : R :=
  let v1 := if Rlt_dec v lo then lo else v in
  if Rlt_dec hi v1 then hi else v1.

Definition ibound (lo hi v : Z) : Z :=
  let v1 := if (v <? lo)%Z then lo else v in
  if (hi <? v1)%Z then hi else v1.

Definition QDoubleSpinBox_setValue (v : R) (c : QDoubleSpinBox) : QDoubleSpinBox :=
  {| dminimum := dminimum c; dmaximum := dmaximum c;
     dvalue := dbound (dminimum c) (dmaximum c) v |}.

Definition QDoubleSpinBox_setRange (lo hi : R) (c : QDoubleSpinBox) : QDoubleSpinBox :=
  let hi' := if Rlt_dec lo hi then hi else lo in
  {| dminimum := lo; dmaximum := hi'; dvalue := dbound lo hi' (dvalue c) |}.

Definition QDoubleSpinBox_setMinimum (m : R) (c : QDoubleSpinBox) : QDoubleSpinBox :=
  QDoubleSpinBox_setRange m (if Rlt_dec m (dmaximum c) then dmaximum c else m) c.

Definition QDoubleSpinBox_setMaximum (m : R) (c : QDoubleSpinBox) : QDoubleSpinBox :=
  QDoubleSpinBox_setRange (if Rlt_dec (dminimum c) m then dminimum c else m) m c.

(** A new [QDoubleSpinBox] has range [[0, 99.99]] and value [0]. *)
Definition QDoubleSpinBox_new : QDoubleSpinBox :=
  {| dminimum := 0; dmaximum := 9999 / 100; dvalue := 0 |}.

Definition QSpinBox_setValue (v : Z) (c : QSpinBox) : QSpinBox :=
  {| iminimum := iminimum c; imaximum := imaximum c;
     ivalue := ibound (iminimum c) (imaximum c) v |}.

Definition QSpinBox_setRange (lo hi : Z) (c : QSpinBox) : QSpinBox :=
  let hi' := if (lo <? hi)%Z then hi else lo in
  {| iminimum := lo; imaximum := hi'; ivalue := ibound lo hi' (ivalue c) |}.

Definition QSpinBox_setMinimum (m : Z) (c : QSpinBox) : QSpinBox :=
  QSpinBox_setRange m (if (m <? imaximum c)%Z then imaximum c else m) c.

Definition QSpinBox_setMaximum (m : Z) (c : QSpinBox) : QSpinBox :=
  QSpinBox_setRange (if (iminimum c <? m)%Z then iminimum c else m) m c.

(** A new [QSpinBox] has range [[0, 99]] and value [0]. *)
Definition QSpinBox_new : QSpinBox :=
  {| iminimum := 0; imaximum := 99; ivalue := 0 |}.

(** Radio buttons with one parent are auto-exclusive: checking one unchecks
    its siblings, and the checked one cannot be unchecked. *)
Fixpoint uncheck_all (rs : list QRadioButton) : list QRadioButton :=
  match rs with
  | [] => []
  | r :: rs' => {| text := text r; radioChecked := false |} :: uncheck_all rs'
  end.

Fixpoint check_only (i : nat) (rs : list QRadioButton) : list QRadioButton :=
  match rs, i with
  | [], _ => []
  | r :: rs', O => {| text := text r; radioChecked := true |} :: uncheck_all rs'
  | r :: rs', S j => {| text := text r; radioChecked := false |} :: check_only j rs'
  end.

(** [radios[i].toggle()] for [i] within the list. *)
Definition toggle_at (i : nat) (rs : list QRadioButton) : list QRadioButton :=
  match nth_error rs i with
  | Some r => if radioChecked r then rs else check_only i rs
  | None => rs
  end.

(** ** Parameter entries ([paramwindow.py])

    The descriptors [ui.PFloat], [ui.PInt], [ui.PBool] and [ui.PSelect] come
    from [core.ui], which is not among the sources; they are records of the
    attributes that the entries read and write. *)

Record PFloat : Type := mkPFloat {
  pf_label : string; pf_min_value : R; pf_max_value : R; pf_step : R; pf_value : R
}.
Record PInt : Type := mkPInt {
  pi_label : string; pi_min_value : Z; pi_max_value : Z; pi_value : Z
}.
Record PBool : Type := mkPBool { pb_label : string; pb_value : bool }.
Record PSelect : Type := mkPSelect {
  ps_label : string; ps_value_list : list string; ps_value : string
}.

(** An entry is a [ValueEntry] of one of the four subclasses, with its
    descriptor [ui] and its widget ([None] until [create_widgets] has run;
    a [ChoiceEntry] reads its list [radios]), or a [Group] with its ordered
    dictionary [leafs].  Entries are taken as built: [Group.__init__], which
    fills [leafs] from the descriptor through the class map, is not
    modelled. *)
Inductive Entry : Type :=
| FloatEntry (ui : PFloat) (control : option QDoubleSpinBox)
| IntEntry (ui : PInt) (control : option QSpinBox)
| BoolEntry (ui : PBool) (control : option QCheckBox)
| ChoiceEntry (ui : PSelect) (radios : option (list QRadioButton))
| Group (leafs : list (string * Entry)).

(** What [get_value] returns and [set_value] receives: a float, an int, a
    bool, a string, or for a group the list of (key, value) pairs. *)
Inductive value : Type :=
| VFloat (r : R)
| VInt (z : Z)
| VBool (b : bool)
| VStr (s : string)
| VPairs (items : list (string * value)).

(** *** The ordered dictionary [leafs] *)

Section Leafs.
Variable A : Type.

(** [self.leafs[k]], with [None] when [k in self.leafs] is false. *)
Fixpoint leafs_get (k : string) (leafs : list (string * A)) : option A :=
  match leafs with
  | [] => None
  | (k', a) :: rest => if String.eqb k k' then Some a else leafs_get k rest
  end.

(** The dictionary after the object stored under [k] has changed to [a]. *)
Fixpoint leafs_put (k : string) (a : A) (leafs : list (string * A))
  : list (string * A) :=
  match leafs with
  | [] => []
  | (k', a') :: rest =>
      if String.eqb k k' then (k', a) :: rest
      else (k', a') :: leafs_put k a rest
  end.
End Leafs.

(** *** [ChoiceEntry] helpers *)

(** [value_list.index(value)]; [None] stands for the [ValueError] of a
    missing element. *)
Fixpoint list_index (s : string) (l : list string) : option nat :=
  match l with
  | [] => None
  | s' :: rest =>
      if String.eqb s s' then Some O
      else match list_index s rest with
           | Some i => Some (S i)
           | None => None
           end
  end.

(** The text of the first checked radio button, if one is checked. *)
Fixpoint first_checked (rs : list QRadioButton) : option string :=
  match rs with
  | [] => None
  | r :: rest => if radioChecked r then Some (text r) else first_checked rest
  end.

(** *** [get_value] *)

Section GetItems.
Variable get1 : Entry -> result value.

(** [[(key, self.leafs[key].get_value()) for key in self.leafs]] *)
Fixpoint get_items (leafs : list (string * Entry)) : result (list (string * value)) :=
  match leafs with
  | [] => Ok []
  | (k, leaf) :: rest =>
      v <- get1 leaf ;;
      vs <- get_items rest ;;
      Ok ((k, v) :: vs)
  end.
End GetItems.

Fixpoint get_value (self : Entry) : result value :=
  match self with
  | FloatEntry _ control =>
      match control with
      | Some c => Ok (VFloat (dvalue c))
      | None => Raise AttributeError
      end
  | IntEntry _ control =>
      match control with
      | Some c => Ok (VInt (ivalue c))
      | None => Raise AttributeError
      end
  | BoolEntry _ control =>
      match control with
      | Some c => Ok (VBool (isChecked c))
      | None => Raise AttributeError
      end
  | ChoiceEntry ui radios =>
      match radios with
      | Some rs =>
          match first_checked rs with
          | Some t => Ok (VStr t)
          | None => Ok (VStr (ps_value ui))
          end
      | None => Raise AttributeError
      end
  | Group leafs =>
      items <- get_items get_value leafs ;;
      Ok (VPairs items)
  end.

(** *** [set_value]

    The model is typed where Python is not.  An argument of another Python
    type than the entry works with is answered with [TypeError], the error
    of PyQt for an argument that it cannot convert; what Python does with
    such an argument in the cases where it goes further (the conversions
    that PyQt accepts, an [int] for a float spin box apart; a value that is
    no string for a [ChoiceEntry]; an iterable that is no list of pairs for
    a [Group]) is outside the model, and no property below rests on it. *)

(** [ValueEntry.set_value] on a [FloatEntry]: [self.control.setValue(value)];
    when the value of the spin box changes, [valueChanged] runs
    [update_slot], which stores the new value in [self.ui.value]. *)
Definition FloatEntry_set_value (v : R) (ui : PFloat) (c : QDoubleSpinBox)
  : PFloat * QDoubleSpinBox :=
  let c' := QDoubleSpinBox_setValue v c in
  let ui' :=
    if Req_dec_T (dvalue c') (dvalue c) then ui
    else {| pf_label := pf_label ui; pf_min_value := pf_min_value ui;
            pf_max_value := pf_max_value ui; pf_step := pf_step ui;
            pf_value := dvalue c' |} in
  (ui', c').

Definition IntEntry_set_value (v : Z) (ui : PInt) (c : QSpinBox) : PInt * QSpinBox :=
  let c' := QSpinBox_setValue v c in
  let ui' :=
    if (ivalue c' =? ivalue c)%Z then ui
    else {| pi_label := pi_label ui; pi_min_value := pi_min_value ui;
            pi_max_value := pi_max_value ui; pi_value := ivalue c' |} in
  (ui', c').

(** [ChoiceEntry.set_value]:
<<
    self.ui.value = value
    i = self.ui.value_list.index(value)
    if i >= 0:
        self.radios[i].toggle()
>> *)
Definition ChoiceEntry_set_value (s : string) (ui : PSelect)
  (radios : option (list QRadioButton)) : Entry * result unit :=
  let ui' := {| ps_label := ps_label ui; ps_value_list := ps_value_list ui;
                ps_value := s |} in
  match list_index s (ps_value_list ui') with
  | None => (ChoiceEntry ui' radios, Raise ValueError)
  | Some i =>
      match radios with
      | None => (ChoiceEntry ui' radios, Raise AttributeError)
      | Some rs =>
          match nth_error rs i with
          | None => (ChoiceEntry ui' radios, Raise IndexError)
          | Some _ => (ChoiceEntry ui' (Some (toggle_at i rs)), Ok tt)
          end
      end
  end.

Section SetItems.
Variable V : Type.
Variable set1 : V -> Entry -> Entry * result unit.

(** The loop of [Group.set_value]:
<<
  for k, v in value:
      if k in self.leafs:
          self.leafs[k].set_value(v)
      else:
          raise KeyError("Key '{}' not accepted by supervisor".format(k))
>>
    A leaf is changed in place, so what it has become when its own
    [set_value] raises stays in the dictionary. *)
Fixpoint set_items (items : list (string * V)) (leafs : list (string * Entry))
  : list (string * Entry) * result unit :=
  match items with
  | [] => (leafs, Ok tt)
  | (k, v) :: rest =>
      match leafs_get k leafs with
      | Some leaf =>
          let '(leaf', r) := set1 v leaf in
          let leafs' := leafs_put k leaf' leafs in
          match r with
          | Ok _ => set_items rest leafs'
          | Raise e => (leafs', Raise e)
          end
      | None => (leafs, Raise (KeyError k))
      end
  end.
End SetItems.

Fixpoint set_value (val : value) (self : Entry) {struct val} : Entry * result unit :=
  match self with
  | FloatEntry ui control =>
      match control with
      | None => (self, Raise AttributeError)
      | Some c =>
          match val with
          | VFloat v =>
              let '(ui', c') := FloatEntry_set_value v ui c in
              (FloatEntry ui' (Some c'), Ok tt)
          | VInt z =>
              let '(ui', c') := FloatEntry_set_value (IZR z) ui c in
              (FloatEntry ui' (Some c'), Ok tt)
          | _ => (self, Raise TypeError)
          end
      end
  | IntEntry ui control =>
      match control with
      | None => (self, Raise AttributeError)
      | Some c =>
          match val with
          | VInt z =>
              let '(ui', c') := IntEntry_set_value z ui c in
              (IntEntry ui' (Some c'), Ok tt)
          | _ => (self, Raise TypeError)
          end
      end
  | BoolEntry ui control =>
      match control with
      | None => (self, Raise AttributeError)
      | Some c =>
          match val with
          | VBool b => (BoolEntry ui (Some {| isChecked := b |}), Ok tt)
          | _ => (self, Raise TypeError)
          end
      end
  | ChoiceEntry ui radios =>
      match val with
      | VStr s => ChoiceEntry_set_value s ui radios
      | _ => (self, Raise TypeError)
      end
  | Group leafs =>
      match val with
      | VPairs items =>
          let '(leafs', r) := set_items set_value items leafs in
          (Group leafs', r)
      | _ => (self, Raise TypeError)
      end
  end.

(** *** [create_widgets]

    The layout and parent arguments carry no state that [get_value] or
    [set_value] reads and are left out, and so is [setSingleStep]. *)

Definition FloatEntry_control (ui : PFloat) : QDoubleSpinBox :=
  QDoubleSpinBox_setValue (pf_value ui)
    (QDoubleSpinBox_setMaximum (pf_max_value ui)
       (QDoubleSpinBox_setMinimum (pf_min_value ui) QDoubleSpinBox_new)).

Definition IntEntry_control (ui : PInt) : QSpinBox :=
  QSpinBox_setValue (pi_value ui)
    (QSpinBox_setMaximum (pi_max_value ui)
       (QSpinBox_setMinimum (pi_min_value ui) QSpinBox_new)).

(** The loop of [ChoiceEntry.create_widgets]: one radio button per element
    of [value_list], appended to [radios]; the one whose text is
    [self.ui.value] is checked, which unchecks its siblings. *)
Fixpoint make_radios (selected : string) (value_list : list string)
  (radios : list QRadioButton) : list QRadioButton :=
  match value_list with
  | [] => radios
  | s :: rest =>
      if String.eqb s selected
      then make_radios selected rest
             (uncheck_all radios ++ [{| text := s; radioChecked := true |}])
      else make_radios selected rest
             (radios ++ [{| text := s; radioChecked := false |}])
  end.

(** [create_widgets] of an entry.  [ChoiceEntry.create_widgets] ends with
    [layout.addRow(self.label, self.control)] and [Group.create_widgets]
    starts with [QtGui.QGroupBox(self.label, parent)]; neither class has an
    attribute [label], so both raise [AttributeError], the first after
    [radios] has been filled. *)
Definition create_widgets (self : Entry) : Entry * result unit :=
  match self with
  | FloatEntry ui _ => (FloatEntry ui (Some (FloatEntry_control ui)), Ok tt)
  | IntEntry ui _ => (IntEntry ui (Some (IntEntry_control ui)), Ok tt)
  | BoolEntry ui _ => (BoolEntry ui (Some {| isChecked := pb_value ui |}), Ok tt)
  | ChoiceEntry ui _ =>
      (ChoiceEntry ui (Some (make_radios (ps_value ui) (ps_value_list ui) [])),
       Raise AttributeError)
  | Group leafs => (self, Raise AttributeError)
  end.

(** ** Valid states

    The state in which an entry answers [get_value] with a value of its
    domain: the widget exists; a spin box holds a value inside its range
    (Qt keeps it there); the radio buttons carry the texts of [value_list]
    and either one of them is checked or [ui.value] is one of the choices;
    the keys of a group are distinct, as in any dictionary. *)

Section AllLeafs.
Variable P : Entry -> Prop.

Fixpoint all_leafs (leafs : list (string * Entry)) : Prop :=
  match leafs with
  | [] => True
  | (_, leaf) :: rest => P leaf /\ all_leafs rest
  end.
End AllLeafs.

Fixpoint valid_state (e : Entry) : Prop :=
  match e with
  | FloatEntry _ (Some c) => dminimum c <= dvalue c <= dmaximum c
  | IntEntry _ (Some c) => (iminimum c <= ivalue c <= imaximum c)%Z
  | BoolEntry _ (Some _) => True
  | ChoiceEntry ui (Some rs) =>
      map text rs = ps_value_list ui /\
      (first_checked rs <> None \/ In (ps_value ui) (ps_value_list ui))
  | Group leafs => NoDup (map fst leafs) /\ all_leafs valid_state leafs
  | _ => False
  end.

(** ** What the specification asks of the bulk set

    The two properties of section 4.4, stated on [Group.set_value] so that
    they can be tested against it. *)

(** A key that the group does not have. *)
Definition unknown_key (leafs : list (string * Entry)) (items : list (string * value))
  : Prop :=
  exists k v, In (k, v) items /\ leafs_get k leafs = None.

(** "fails ... and leaves every leaf's value exactly as it was before the
    call": the snapshot after a failed call is the snapshot before it. *)
Definition atomic_on (leafs : list (string * Entry)) (items : list (string * value))
  : Prop :=
  unknown_key leafs items ->
  exists e,
    snd (set_value (VPairs items) (Group leafs)) = Raise e /\
    get_value (fst (set_value (VPairs items) (Group leafs))) = get_value (Group leafs).

(** "a bulk set assigning it the value 15 fails": the call raises. *)
Definition rejects (leaf : Entry) (key : string) (v : R) : Prop :=
  exists e, snd (set_value (VPairs [(key, VFloat v)]) (Group [(key, leaf)])) = Raise e.

(** ** The round trip of a value

    An entry answers [get_value] with [v], takes [v] back without raising,
    and answers [v] again, in a valid state. *)
Definition round_trips (e : Entry) : Prop :=
  exists (v : value) (e' : Entry),
    get_value e = Ok v /\
    set_value v e = (e', Ok tt) /\
    get_value e' = Ok v /\
    valid_state e'.

(** ** Induction on entries *)

Section EntryInduction.
Variable P : Entry -> Prop.
Hypothesis HFloat : forall ui control, P (FloatEntry ui control).
Hypothesis HInt : forall ui control, P (IntEntry ui control).
Hypothesis HBool : forall ui control, P (BoolEntry ui control).
Hypothesis HChoice : forall ui radios, P (ChoiceEntry ui radios).
Hypothesis HGroup :
  forall leafs, Forall (fun kv => P (snd kv)) leafs -> P (Group leafs).

(** Induction on an entry, with the hypothesis for every leaf of a
    group. *)
Fixpoint Entry_leafs_ind (e : Entry) : P e :=
  match e with
  | FloatEntry ui control => HFloat ui control
  | IntEntry ui control => HInt ui control
  | BoolEntry ui control => HBool ui control
  | ChoiceEntry ui radios => HChoice ui radios
  | Group leafs =>
      HGroup
        ((fix each (l : list (string * Entry)) : Forall (fun kv => P (snd kv)) l :=
            match l with
            | [] => Forall_nil _
            | kv :: rest => Forall_cons kv (Entry_leafs_ind (snd kv)) (each rest)
            end) leafs)
  end.
End EntryInduction.

(** ** Concrete inputs

    The scenario of section 8 of the specification: [R = 0.02], [L = 0.1],
    100 ticks per revolution, start pose [(0, 0, 0)], tick deltas 50 (left)
    and 100 (right). *)

Definition scenario_wheels : Wheels :=
  {| radius := 2 / 100; base_length := 1 / 10; ticks_per_rev := 100;
     wheel_left_ticks := 50; wheel_right_ticks := 100 |}.

Definition scenario : K3Supervisor :=
  {| pose_est := {| x := 0; y := 0; theta := 0 |};
     robot := {| wheels := scenario_wheels |};
     ui_params := get_default_parameters;
     left_ticks := 0; right_ticks := 0 |}.

(** The same robot standing still: the counts are the stored ones. *)
Definition scenario_at_rest : K3Supervisor :=
  {| pose_est := {| x := 1; y := 2; theta := 3 |};
     robot := {| wheels := scenario_wheels |};
     ui_params := get_default_parameters;
     left_ticks := 50; right_ticks := 100 |}.

(** A robot whose wheels have no radius. *)
Definition flat_wheels : Wheels :=
  {| radius := 0; base_length := 1 / 10; ticks_per_rev := 100;
     wheel_left_ticks := 0; wheel_right_ticks := 0 |}.

(** A gain with declared bounds [[0, 10]] and value [1], as a descriptor and
    as the entry that [create_widgets] makes of it, alone in a group under
    the key [kp]. *)
Definition gain_ui : PFloat :=
  {| pf_label := "Proportional gain"; pf_min_value := 0; pf_max_value := 10;
     pf_step := 1; pf_value := 1 |}.

Definition gain_entry : Entry :=
  FloatEntry gain_ui (Some {| dminimum := 0; dmaximum := 10; dvalue := 1 |}).

Definition gains_leafs : list (string * Entry) := [("kp"%string, gain_entry)].

(** Two updates: a valid one for [kp], then one for a key that the group
    does not have. *)
Definition gains_update : list (string * value) :=
  [("kp"%string, VFloat 2); ("bogus"%string, VFloat 0)].

(** A tree with every kind of entry: the gain, a check box, an integer, a
    choice with its radio buttons as [create_widgets] makes them, and a
    nested group with the goal. *)
Definition mode_ui : PSelect :=
  {| ps_label := "Mode"; ps_value_list := ["pid"%string; "hold"%string];
     ps_value := "hold" |}.

Definition goal_x_ui : PFloat :=
  {| pf_label := "X"; pf_min_value := -10; pf_max_value := 10;
     pf_step := 1; pf_value := -5 |}.

Definition sample_tree : Entry :=
  Group
    [("kp"%string, gain_entry);
     ("on"%string,
      BoolEntry {| pb_label := "On"; pb_value := true |}
                (Some {| isChecked := true |}));
     ("laps"%string,
      IntEntry {| pi_label := "Laps"; pi_min_value := 0; pi_max_value := 5;
                  pi_value := 3 |}
               (Some {| iminimum := 0; imaximum := 5; ivalue := 3 |}));
     ("mode"%string,
      ChoiceEntry mode_ui
        (Some (make_radios (ps_value mode_ui) (ps_value_list mode_ui) [])));
     ("goal"%string,
      Group
        [("x"%string,
          FloatEntry goal_x_ui
            (Some {| dminimum := -10; dmaximum := 10; dvalue := -5 |}))])].

(** The robot of the scenario turning on the spot (the left wheel goes ten
    ticks back, the right one ten ticks on) and going straight (thirty
    ticks each). *)
Definition scenario_spin : K3Supervisor :=
  {| pose_est := {| x := 1; y := 2; theta := 0 |};
     robot := {| wheels := {| radius := 2 / 100; base_length := 1 / 10;
                              ticks_per_rev := 100;
                              wheel_left_ticks := 0; wheel_right_ticks := 10 |} |};
     ui_params := get_default_parameters;
     left_ticks := 10; right_ticks := 0 |}.

Definition scenario_ahead : K3Supervisor :=
  {| pose_est := {| x := 1; y := 2; theta := 0 |};
     robot := {| wheels := {| radius := 2 / 100; base_length := 1 / 10;
                              ticks_per_rev := 100;
                              wheel_left_ticks := 30; wheel_right_ticks := 30 |} |};
     ui_params := get_default_parameters;
     left_ticks := 0; right_ticks := 0 |}.

(** ** More of the parameter entries *)

(** Induction on a value, with the hypothesis for every value of a list of
    pairs. *)
Section ValueInduction.
Variable P : value -> Prop.
Hypothesis HVFloat : forall r, P (VFloat r).
Hypothesis HVInt : forall z, P (VInt z).
Hypothesis HVBool : forall b, P (VBool b).
Hypothesis HVStr : forall s, P (VStr s).
Hypothesis HVPairs :
  forall items, Forall (fun kv => P (snd kv)) items -> P (VPairs items).

Fixpoint value_items_ind (v : value) : P v :=
  match v with
  | VFloat r => HVFloat r
  | VInt z => HVInt z
  | VBool b => HVBool b
  | VStr s => HVStr s
  | VPairs items =>
      HVPairs
        ((fix each (l : list (string * value)) : Forall (fun kv => P (snd kv)) l :=
            match l with
            | [] => Forall_nil _
            | kv :: rest => Forall_cons kv (value_items_ind (snd kv)) (each rest)
            end) items)
  end.
End ValueInduction.

Section MapLeafs.
Variables A B : Type.
Variable f : A -> B.

Fixpoint map_leafs (leafs : list (string * A)) : list (string * B) :=
  match leafs with
  | [] => []
  | (k, a) :: rest => (k, f a) :: map_leafs rest
  end.
End MapLeafs.

(** What of an entry is not a value: the kind of the entry, what its
    descriptor declares, whether the widget exists, the range of the spin
    box, the texts of the radio buttons, and for a group the keys in their
    order with the same of every leaf. *)
Inductive Skeleton : Type :=
| SkFloat (label : string) (min_value max_value step : R) (range : option (R * R))
| SkInt (label : string) (min_value max_value : Z) (range : option (Z * Z))
| SkBool (ui : PBool) (widget : bool)
| SkChoice (label : string) (value_list : list string) (texts : option (list string))
| SkGroup (leafs : list (string * Skeleton)).

Fixpoint skeleton (e : Entry) : Skeleton :=
  match e with
  | FloatEntry ui control =>
      SkFloat (pf_label ui) (pf_min_value ui) (pf_max_value ui) (pf_step ui)
        (option_map (fun c => (dminimum c, dmaximum c)) control)
  | IntEntry ui control =>
      SkInt (pi_label ui) (pi_min_value ui) (pi_max_value ui)
        (option_map (fun c => (iminimum c, imaximum c)) control)
  | BoolEntry ui control =>
      SkBool ui (match control with Some _ => true | None => false end)
  | ChoiceEntry ui radios =>
      SkChoice (ps_label ui) (ps_value_list ui) (option_map (map text) radios)
  | Group leafs => SkGroup (map_leafs skeleton leafs)
  end.


Section AllLeafsB.
Variable p : Entry -> bool.

Fixpoint forallb_leafs (leafs : list (string * Entry)) : bool :=
  match leafs with
  | [] => true
  | (_, leaf) :: rest => p leaf && forallb_leafs rest
  end.
End AllLeafsB.

(** Every entry of the tree has its widget. *)
Fixpoint has_widgets (e : Entry) : bool :=
  match e with
  | FloatEntry _ (Some _) | IntEntry _ (Some _) | BoolEntry _ (Some _)
  | ChoiceEntry _ (Some _) => true
  | Group leafs => forallb_leafs has_widgets leafs
  | _ => false
  end.

(** The number of checked radio buttons; Qt keeps it at most one. *)
Fixpoint count_checked (rs : list QRadioButton) : nat :=
  match rs with
  | [] => O
  | r :: rest => (if radioChecked r then 1 else 0) + count_checked rest
  end.

(** The numbers that a Qt spin box stores as they are given.  A
    [QDoubleSpinBox] rounds what [setValue] receives to its number of
    decimals, two unless [setDecimals] is called, which the entries never
    do: a number of at most two decimals is left as it is.  A [QSpinBox]
    takes a C [int]: PyQt raises [OverflowError] for a Python [int] outside
    the 32 bits. *)
Definition two_decimals (r : R) : Prop := exists k : Z, r = IZR k / 100.

Definition c_int (z : Z) : Prop := (- 2147483648 <= z <= 2147483647)%Z.

(** A value of the domain of a leaf: a number of at most two decimals
    inside the range of the float spin box, an integer inside the range of
    the int spin box, this range being one of C [int]s, a bool, one of the
    choices (the radio buttons carrying the texts of [value_list], at most
    one of them checked). *)
Definition in_domain (v : value) (e : Entry) : Prop :=
  match e, v with
  | FloatEntry _ (Some c), VFloat r =>
      dminimum c <= r <= dmaximum c /\ two_decimals r
  | IntEntry _ (Some c), VInt z =>
      (iminimum c <= z <= imaximum c)%Z /\ c_int (iminimum c) /\ c_int (imaximum c)
  | BoolEntry _ (Some _), VBool _ => True
  | ChoiceEntry ui (Some rs), VStr s =>
      In s (ps_value_list ui) /\ map text rs = ps_value_list ui /\
      (count_checked rs <= 1)%nat
  | _, _ => False
  end.

(** *** [Contents.create_widgets]
<<
  for leaf in self.leafs.values():
      leaf.create_widgets(parent,form_layout)
>>
    What a leaf raises ends the loop; the leaves after it keep the state
    they had. *)
Fixpoint Contents_create_widgets (leafs : list (string * Entry))
  : list (string * Entry) * result unit :=
  match leafs with
  | [] => ([], Ok tt)
  | (k, leaf) :: rest =>
      let '(leaf', r) := create_widgets leaf in
      match r with
      | Ok _ =>
          let '(rest', r') := Contents_create_widgets rest in
          ((k, leaf') :: rest', r')
      | Raise e => ((k, leaf') :: rest, Raise e)
      end
  end.

(** An entry of one of the three classes whose [create_widgets] returns,
    with a declared range that is not empty; the bounds and the value that
    an [IntEntry] declares are C [int]s, as [QSpinBox.setMinimum],
    [setMaximum] and [setValue] require. *)
Definition plain_entry (e : Entry) : Prop :=
  match e with
  | FloatEntry ui _ => pf_min_value ui <= pf_max_value ui
  | IntEntry ui _ =>
      (pi_min_value ui <= pi_max_value ui)%Z /\
      c_int (pi_min_value ui) /\ c_int (pi_max_value ui) /\ c_int (pi_value ui)
  | BoolEntry _ _ => True
  | _ => False
  end.

(** An integer descriptor, as the one of [sample_tree]. *)
Definition laps_ui : PInt :=
  {| pi_label := "Laps"; pi_min_value := 0; pi_max_value := 5; pi_value := 3 |}.

(** An entry of one of the two classes whose [create_widgets] raises. *)
Definition labelless_entry (e : Entry) : Prop :=
  match e with
  | ChoiceEntry _ _ | Group _ => True
  | _ => False
  end.

(** ** The wx renderer ([scripts/wxrenderer.py])

    The renderer draws through a [wx.GraphicsContext] and a device context,
    which belong to wxPython.  Their side of the story is the list of the
    calls that the renderer makes on them, in the order of the calls;
    numbers are reals, and a colour given to the renderer is an [int] or
    [None]. *)

(** [wx.Colour(r, g, b, a)] *)
Record Colour : Type := mkColour { red : Z; green : Z; blue : Z; alpha : Z }.

(** The objects that [gc.CreatePen(wx.Pen(colour))] and
    [gc.CreateBrush(wx.Brush(colour))] return. *)
Record GraphicsPen : Type := mkPen { pen_colour : option Colour }.
Record GraphicsBrush : Type := mkBrush { brush_colour : option Colour }.

Inductive GcCall : Type :=
| Clear
| Scale (sx sy : R)
| Translate (dx dy : R)
| Rotate (angle : R)
| PushState
| PopState
| CreatePen (colour : option Colour)
| SetPen (pen : GraphicsPen)
| CreateBrush (colour : option Colour)
| SetBrush (brush : GraphicsBrush)
| DrawLines (points : list (list R))
| DrawEllipse (x0 y0 w h : R)
| DrawRectangle (x0 y0 w h : R)
| DrawText (str : string) (x0 y0 : R) (background : GraphicsBrush).

(** [wxGCRenderer.__wxcolor]:
<<
    if color is None:
        return None
    r = (color >> 16) & 0xFF
    g = (color >> 8) & 0xFF
    b = (color) & 0xFF
    return wx.Colour(r,g,b,255)
>> *)
Definition wxcolor (color : option Z) : option Colour :=
  match color with
  | None => None
  | Some c =>
      let r := Z.land (Z.shiftr c 16) 255 in
      let g := Z.land (Z.shiftr c 8) 255 in
      let b := Z.land c 255 in
      Some {| red := r; green := g; blue := b; alpha := 255 |}
  end.

(** The dictionaries [_pens] and [_brushes], keyed by the colour given. *)
Definition color_eqb (a b : option Z) : bool :=
  match a, b with
  | None, None => true
  | Some c, Some d => Z.eqb c d
  | _, _ => false
  end.

Section Cache.
Variable A : Type.

Fixpoint cache_get (color : option Z) (cache : list (option Z * A)) : option A :=
  match cache with
  | [] => None
  | (c, a) :: rest => if color_eqb color c then Some a else cache_get color rest
  end.
End Cache.

Record wxGCRenderer : Type := mkRenderer {
  size : R * R;
  calls : list GcCall;
  _pens : list (option Z * GraphicsPen);
  _brushes : list (option Z * GraphicsBrush)
}.

Definition call (c : GcCall) (self : wxGCRenderer) : wxGCRenderer :=
  {| size := size self; calls := calls self ++ [c];
     _pens := _pens self; _brushes := _brushes self |}.

(** [setPen]:
<<
    if color not in self._pens:
        self._pens[color] = self.gc.CreatePen(wx.Pen(self.__wxcolor(color)))
    self.gc.SetPen(self._pens[color])
>>
    [wx.Pen] and [wx.Brush] take [None] for a colour, as [__init__] relies
    on. *)
Definition setPen (color : option Z) (self : wxGCRenderer) : wxGCRenderer :=
  match cache_get color (_pens self) with
  | Some pen => call (SetPen pen) self
  | None =>
      let pen := {| pen_colour := wxcolor color |} in
      call (SetPen pen)
        {| size := size self;
           calls := calls self ++ [CreatePen (wxcolor color)];
           _pens := _pens self ++ [(color, pen)];
           _brushes := _brushes self |}
  end.

(** [setBrush], the same with [_brushes]. *)
Definition setBrush (color : option Z) (self : wxGCRenderer) : wxGCRenderer :=
  match cache_get color (_brushes self) with
  | Some brush => call (SetBrush brush) self
  | None =>
      let brush := {| brush_colour := wxcolor color |} in
      call (SetBrush brush)
        {| size := size self;
           calls := calls self ++ [CreateBrush (wxcolor color)];
           _pens := _pens self;
           _brushes := _brushes self ++ [(color, brush)] |}
  end.

(** [drawText]: the brush of the background colour comes from [_brushes],
    and is handed to [gc.DrawText] without being selected. *)
Definition drawText (str : string) (x0 y0 : R) (bgcolor : option Z)
  (self : wxGCRenderer) : wxGCRenderer :=
  match cache_get bgcolor (_brushes self) with
  | Some brush => call (DrawText str x0 y0 brush) self
  | None =>
      let brush := {| brush_colour := wxcolor bgcolor |} in
      call (DrawText str x0 y0 brush)
        {| size := size self;
           calls := calls self ++ [CreateBrush (wxcolor bgcolor)];
           _pens := _pens self;
           _brushes := _brushes self ++ [(bgcolor, brush)] |}
  end.

(** [drawPolygon]:
<<
    xy_pts = [point[:2] for point in points]
    xy_pts.append(xy_pts[0])
    self.gc.DrawLines(xy_pts)
>>
    With no point, [xy_pts[0]] raises [IndexError]. *)
Definition drawPolygon (points : list (list R)) (self : wxGCRenderer)
  : wxGCRenderer * result unit :=
  let xy_pts := map (firstn 2) points in
  match xy_pts with
  | [] => (self, Raise IndexError)
  | first :: _ => (call (DrawLines (xy_pts ++ [first])) self, Ok tt)
  end.

Definition drawLine (x1 y1 x2 y2 : R) (self : wxGCRenderer) : wxGCRenderer :=
  call (DrawLines [[x1; y1]; [x2; y2]]) self.

Definition drawEllipse (x0 y0 w h : R) (self : wxGCRenderer) : wxGCRenderer :=
  call (DrawEllipse x0 y0 w h) self.

Definition drawRectangle (x0 y0 w h : R) (self : wxGCRenderer) : wxGCRenderer :=
  call (DrawRectangle x0 y0 w h) self.

Definition clearScreen (self : wxGCRenderer) : wxGCRenderer := call Clear self.

(** [resetPose]: [self.gc.PopState()] then [self.gc.PushState()]. *)
Definition resetPose (self : wxGCRenderer) : wxGCRenderer :=
  call PushState (call PopState self).

(** [addPose]: [self.gc.Translate(pose.x, pose.y)] then
    [self.gc.Rotate(pose.theta)]. *)
Definition addPose (pose : Pose) (self : wxGCRenderer) : wxGCRenderer :=
  call (Rotate (theta pose)) (call (Translate (x pose) (y pose)) self).

(** [wxGCRenderer.__init__].  [Renderer.__init__] of the base class, which
    is not among the sources, is given the size of the device context; the
    line [self.gc.Translate(0,-self.size[1])] reads it back from
    [self.size]. *)
Definition wxGCRenderer_init (dc_size : R * R) : wxGCRenderer :=
  let self :=
    {| size := dc_size;
       calls := [Scale 1 (-1); Translate 0 (- snd dc_size)];
       _pens := []; _brushes := [] |} in
  call PushState (setBrush None (setPen None self)).

(** The calls of a program that uses the renderer. *)
Inductive RenderOp : Type :=
| OpClearScreen
| OpResetPose
| OpAddPose (pose : Pose)
| OpSetPen (color : option Z)
| OpSetBrush (color : option Z)
| OpDrawPolygon (points : list (list R))
| OpDrawEllipse (x0 y0 w h : R)
| OpDrawRectangle (x0 y0 w h : R)
| OpDrawText (str : string) (x0 y0 : R) (bgcolor : option Z)
| OpDrawLine (x1 y1 x2 y2 : R).

(** One call; an [IndexError] of [drawPolygon] is caught by the caller. *)
Definition render (op : RenderOp) (self : wxGCRenderer) : wxGCRenderer :=
  match op with
  | OpClearScreen => clearScreen self
  | OpResetPose => resetPose self
  | OpAddPose pose => addPose pose self
  | OpSetPen color => setPen color self
  | OpSetBrush color => setBrush color self
  | OpDrawPolygon points => fst (drawPolygon points self)
  | OpDrawEllipse x0 y0 w h => drawEllipse x0 y0 w h self
  | OpDrawRectangle x0 y0 w h => drawRectangle x0 y0 w h self
  | OpDrawText str x0 y0 bgcolor => drawText str x0 y0 bgcolor self
  | OpDrawLine x1 y1 x2 y2 => drawLine x1 y1 x2 y2 self
  end.

Definition render_all (ops : list RenderOp) (self : wxGCRenderer) : wxGCRenderer :=
  fold_left (fun r op => render op r) ops self.

(** *** What the graphics context makes of the calls

    The transformation of a [wx.GraphicsContext] as the list of the
    [Scale], [Translate] and [Rotate] calls that made it, and the stack of
    the transformations that [PushState] has saved; [PopState] takes the
    transformation back from the stack, and has nothing to take from an
    empty one. *)
Record GcState : Type := mkGc {
  transform : list GcCall;
  saved : list (list GcCall)
}.

Definition gc_call (c : GcCall) (g : GcState) : option GcState :=
  match c with
  | Scale _ _ | Translate _ _ | Rotate _ =>
      Some {| transform := transform g ++ [c]; saved := saved g |}
  | PushState => Some {| transform := transform g; saved := transform g :: saved g |}
  | PopState =>
      match saved g with
      | [] => None
      | t :: rest => Some {| transform := t; saved := rest |}
      end
  | _ => Some g
  end.

Fixpoint gc_run (cs : list GcCall) (g : GcState) : option GcState :=
  match cs with
  | [] => Some g
  | c :: rest =>
      match gc_call c g with
      | Some g' => gc_run rest g'
      | None => None
      end
  end.

Definition gc_new : GcState := {| transform := []; saved := [] |}.

(** The transformation that [__init__] sets and saves. *)
Definition base_transform (dc_size : R * R) : list GcCall :=
  [Scale 1 (-1); Translate 0 (- snd dc_size)].

(** The number of pens that the graphics context has been asked for. *)
Fixpoint pens_created (cs : list GcCall) : nat :=
  match cs with
  | [] => O
  | CreatePen _ :: rest => S (pens_created rest)
  | _ :: rest => pens_created rest
  end.

(** The colours given to [setPen] by a list of calls. *)
Fixpoint pen_colors (ops : list RenderOp) : list (option Z) :=
  match ops with
  | [] => []
  | OpSetPen color :: rest => color :: pen_colors rest
  | _ :: rest => pen_colors rest
  end.

Definition color_eq_dec (a b : option Z) : {a = b} + {a <> b}.
Proof. decide equality. apply Z.eq_dec. Defined.

(** ** [get_struct]

    [ValueEntry.get_struct] returns what [get_value] returns;
    [Group.get_struct] returns a [Struct] whose attributes are the keys of
    the group:
<<
    p = Struct()
    for key, leaf in self.leafs.items():
        p.__dict__[key] = leaf.get_struct()
    return p
>>
    [Struct], of [core.helpers], is an object with no attribute of its
    own. *)
Inductive StructValue : Type :=
| SLeaf (v : value)
| Struct (attrs : list (string * StructValue)).

Section Dict.
Variable A : Type.

(** [d[k] = a] on a dictionary: the value of an existing key is replaced, a
    new key comes last. *)
Fixpoint dict_set (k : string) (a : A) (d : list (string * A)) : list (string * A) :=
  match d with
  | [] => [(k, a)]
  | (k', a') :: rest =>
      if String.eqb k k' then (k', a) :: rest else (k', a') :: dict_set k a rest
  end.
End Dict.

Section StructItems.
Variable get1 : Entry -> result StructValue.

Fixpoint struct_items (leafs : list (string * Entry)) (attrs : list (string * StructValue))
  : result (list (string * StructValue)) :=
  match leafs with
  | [] => Ok attrs
  | (k, leaf) :: rest =>
      v <- get1 leaf ;;
      struct_items rest (dict_set k v attrs)
  end.
End StructItems.

Fixpoint get_struct (self : Entry) : result StructValue :=
  match self with
  | Group leafs =>
      attrs <- struct_items get_struct leafs [] ;;
      Ok (Struct attrs)
  | _ =>
      v <- get_value self ;;
      Ok (SLeaf v)
  end.

(** The list of pairs of [get_value] as a [Struct]. *)
Fixpoint to_struct (v : value) : StructValue :=
  match v with
  | VPairs items => Struct (map_leafs to_struct items)
  | _ => SLeaf v
  end.

(** The keys of every group of the tree are distinct, as the keys of a
    dictionary are. *)
Fixpoint keys_distinct (e : Entry) : Prop :=
  match e with
  | Group leafs => NoDup (map fst leafs) /\ all_leafs keys_distinct leafs
  | _ => True
  end.

(** ** The dock of a parameter window ([ParamDock])

    Of the Qt side of a dock the model keeps what the methods of the class
    read: which widget the dock shows ([self.widget()]: the parameter
    widget, the one-pixel panel of a collapsed dock, or none), the flag
    [__click], and the number of [title_click] signals emitted.  The
    [show()] and [hide()] of the two widgets and the style sheet are left
    out: no method reads them. *)

Inductive DockContent : Type := NoContent | TheWidget | ThePanel.

Record ParamDock : Type := mkDock {
  content : DockContent;
  click : bool;
  title_clicks : nat
}.

(** The events that [ParamDock.event] tells apart; a press carries
    [event.y()]. *)
Inductive QEvent : Type :=
| MouseButtonPress (ypos : Z)
| MouseMove
| MouseButtonRelease
| OtherEvent.

(** [ParamDock.event]:
<<
    if event.type() == QEvent.MouseButtonPress:
        if event.y() < self.widget().geometry().top():
            self.__click = True
    elif event.type() == QEvent.MouseMove:
        self.__click = False
    elif event.type() == QEvent.MouseButtonRelease:
        if self.__click:
            self.title_click.emit()
            self.__click = False
    return QtGui.QDockWidget.event(self,event)
>>
    [top] is [self.widget().geometry().top()], the height of the title bar,
    at the time of the event; with no widget in the dock, [self.widget()]
    is [None] and the press raises [AttributeError]. *)
Definition ParamDock_event (top : Z) (event : QEvent) (self : ParamDock)
  : ParamDock * result unit :=
  match event with
  | MouseButtonPress ypos =>
      match content self with
      | NoContent => (self, Raise AttributeError)
      | _ =>
          if (ypos <? top)%Z
          then ({| content := content self; click := true;
                   title_clicks := title_clicks self |}, Ok tt)
          else (self, Ok tt)
      end
  | MouseMove =>
      ({| content := content self; click := false;
          title_clicks := title_clicks self |}, Ok tt)
  | MouseButtonRelease =>
      if click self
      then ({| content := content self; click := false;
               title_clicks := S (title_clicks self) |}, Ok tt)
      else (self, Ok tt)
  | OtherEvent => (self, Ok tt)
  end.

(** The events of a list, each with the height of the title bar at its
    time. *)
Definition ParamDock_events (events : list (Z * QEvent)) (self : ParamDock) : ParamDock :=
  fold_left (fun d te => fst (ParamDock_event (fst te) (snd te) d)) events self.

(** An event that leaves [__click] alone or sets it: not a move and not a
    release. *)
Definition quiet (te : Z * QEvent) : Prop :=
  snd te <> MouseMove /\ snd te <> MouseButtonRelease.

(** [expand], [collapse] and [is_collapsed]:
<<
    def collapse(self, bool_collapse = True):
        self.expand(not bool_collapse)
    def expand(self, bool_expand = True):
        if bool_expand:
            self.setWidget(self.__widget) ...
        else:
            self.setWidget(self.__panel) ...
    def is_collapsed(self):
        return self.widget() == self.__panel
>> *)
Definition expand (bool_expand : bool) (self : ParamDock) : ParamDock :=
  {| content := if bool_expand then TheWidget else ThePanel;
     click := click self; title_clicks := title_clicks self |}.

Definition collapse (bool_collapse : bool) (self : ParamDock) : ParamDock :=
  expand (negb bool_collapse) self.

Definition is_collapsed (self : ParamDock) : bool :=
  match content self with
  | ThePanel => true
  | _ => false
  end.

(** ** Building a parameter window

    Two more exceptions of Python, for a name that is bound nowhere and for
    a local variable read before it is assigned. *)
Inductive gui_exn : Type :=
| PyExn (e : exn)
| NameError (name : string)
| UnboundLocalError (name : string).

Inductive outcome (A : Type) : Type :=
| Done (a : A)
| Raised (e : gui_exn).

Arguments Done {A} a.
Arguments Raised {A} e.

(** The elements of a descriptor ([ui_descr.contents]): each has a name and
    is of one of the five classes of [Group._class_map]. *)
Inductive UiElement : Type :=
| UiFloat (name : string) (ui : PFloat)
| UiInt (name : string) (ui : PInt)
| UiBool (name : string) (ui : PBool)
| UiSelect (name : string) (ui : PSelect)
| UiGroup (name : string) (contents : list UiElement).

(** [Group.__init__]:
<<
    self.ui = ui_descr
    self.leafs = OrderedDict()
    for element in ui_descr.contents:
        self.leafs[element.name] = _class_map[type(element)](element)
>>
    [_class_map] is an attribute of the class; the method names it without
    [self] or [Group], and a method does not see the names of its class
    body: the first element raises [NameError].  (The class body names
    [Group] itself in [_class_map]; the methods are taken as those of the
    class that the body describes.) *)
Definition Group_init (contents : list UiElement) : outcome (list (string * Entry)) :=
  match contents with
  | [] => Done []
  | _ :: _ => Raised (NameError "_class_map")
  end.

(** [ParamWidget.__init__], as far as it can raise:
    [self.contents = Contents(parameters)] and then
    [self.contents.create_widgets(self,verticalLayout)]. *)
Definition ParamWidget_init (parameters : list UiElement)
  : outcome (list (string * Entry)) :=
  match Group_init parameters with
  | Raised e => Raised e
  | Done leafs =>
      match Contents_create_widgets leafs with
      | (leafs', Ok _) => Done leafs'
      | (_, Raise e) => Raised (PyExn e)
      end
  end.

(** [ParamDock.reset]: the new parameter widget is made first, and becomes
    the widget of the dock unless the dock is collapsed:
<<
    self.__widget = ParamWidget(self, window_id, parameters)
    self.__widget.apply_request.connect(self.apply_request)
    if not self.is_collapsed():
        self.setWidget(self.__widget)
>> *)
Definition ParamDock_reset (parameters : list UiElement) (self : ParamDock)
  : ParamDock * outcome unit :=
  match ParamWidget_init parameters with
  | Raised e => (self, Raised e)
  | Done _ =>
      (if is_collapsed self then self
       else {| content := TheWidget; click := click self;
               title_clicks := title_clicks self |},
       Done tt)
  end.

(** [ParamDock.__init__]: no widget, [__click] false, then [reset]. *)
Definition ParamDock_init (parameters : list UiElement) : outcome ParamDock :=
  match ParamDock_reset parameters
          {| content := NoContent; click := false; title_clicks := 0 |} with
  | (dock, Done _) => Done dock
  | (_, Raised e) => Raised e
  end.

(** ** The dock manager ([DockManager])

    A dock is an object with an identity; the manager holds references to
    docks in its dictionary [docks], in the two lists and in the two
    [active] attributes.  The docks that exist are the elements of
    [objects], and a reference is the position of the dock in it. *)
Definition Dock : Type := nat.

Record DockManager : Type := mkManager {
  objects : list ParamDock;
  docks : list (string * Dock);
  docks_left : list Dock;
  docks_right : list Dock;
  active_left : option Dock;
  active_right : option Dock
}.

(** [dock in dlist] and [dlist.remove(dock)] *)
Definition dock_in (dock : Dock) (dlist : list Dock) : bool :=
  existsb (Nat.eqb dock) dlist.

Fixpoint list_remove (dock : Dock) (dlist : list Dock) : list Dock :=
  match dlist with
  | [] => []
  | d :: rest => if Nat.eqb dock d then rest else d :: list_remove dock rest
  end.

(** A method call on the dock that a reference names. *)
Fixpoint on_dock (f : ParamDock -> ParamDock) (dock : Dock) (objs : list ParamDock)
  : list ParamDock :=
  match objs, dock with
  | [], _ => []
  | o :: rest, O => f o :: rest
  | o :: rest, S d => o :: on_dock f d rest
  end.

Definition with_objects (objs : list ParamDock) (self : DockManager) : DockManager :=
  {| objects := objs; docks := docks self;
     docks_left := docks_left self; docks_right := docks_right self;
     active_left := active_left self; active_right := active_right self |}.

(** [dock_to_name]:
<<
    for k, vdock in self.docks.items():
        if vdock == dock:
            return k
    return "Unknown dock"
>> *)
Fixpoint name_of (dock : Dock) (d : list (string * Dock)) : option string :=
  match d with
  | [] => None
  | (k, v) :: rest => if Nat.eqb v dock then Some k else name_of dock rest
  end.

Definition dock_to_name (dock : Dock) (self : DockManager) : string :=
  match name_of dock (docks self) with
  | Some k => k
  | None => "Unknown dock"
  end.

(** [del self.docks[k]] for the first [k] whose dock is [dock]. *)
Fixpoint del_dock (dock : Dock) (d : list (string * Dock)) : list (string * Dock) :=
  match d with
  | [] => []
  | (k, v) :: rest => if Nat.eqb v dock then rest else (k, v) :: del_dock dock rest
  end.

(** [remove_dock]:
<<
    if dock in self.docks_left:
        self.docks_left.remove(old_dock)
    elif dock in self.docks_right:
        self.docks_right.remove(old_dock)
    for k,v in self.docks.items():
        if v == dock:
            del self.docks[k]
            break
>>
    The method has no [old_dock]. *)
Definition remove_dock (dock : Dock) (self : DockManager) : DockManager * outcome unit :=
  if dock_in dock (docks_left self) then (self, Raised (NameError "old_dock"))
  else if dock_in dock (docks_right self) then (self, Raised (NameError "old_dock"))
  else ({| objects := objects self; docks := del_dock dock (docks self);
           docks_left := docks_left self; docks_right := docks_right self;
           active_left := active_left self; active_right := active_right self |},
        Done tt).

(** [clear]: every dock of [docks] gets [deleteLater()], then
<<
    self.docks_left = []
    self.active_left = None
    self.docks_right = []
    self.active_right = None
    self.docks = {}
>> *)
Definition clear (self : DockManager) : DockManager :=
  {| objects := objects self; docks := [];
     docks_left := []; docks_right := [];
     active_left := None; active_right := None |}.

(** [DockManager.__init__]: [self.docks = {}] and [self.clear()]. *)
Definition DockManager_init : DockManager :=
  {| objects := []; docks := [];
     docks_left := []; docks_right := [];
     active_left := None; active_right := None |}.

(** [add_dock]:
<<
    if name in self.docks:
        self.docks[name].reset(robot_id, robot_id.color, parameters)
        return
    dock = ParamDock(self.parent(), robot_id, name, robot_id.color, parameters)
    self.docks[name] = dock
    if side == 'left':
        dlist = self.docks_left
        self.parent().addDockWidget(Qt.LeftDockWidgetArea, dock)
        if not dlist:
            self.active_left = dock
    elif side == 'right':
        dlist = self.docks_right
        self.parent().addDockWidget(Qt.RightDockWidgetArea, dock)
        if not dlist:
            self.active_right = dock
    dlist.append(dock)
    dock.expand(len(dlist) == 1)
>>
    and the connections of the signals of the dock.  With another [side],
    [dlist] is read before it is assigned. *)
Definition add_dock (name : string) (parameters : list UiElement) (side : string)
  (self : DockManager) : DockManager * outcome unit :=
  match leafs_get name (docks self) with
  | Some old =>
      match nth_error (objects self) old with
      | Some o =>
          let '(o', r) := ParamDock_reset parameters o in
          (with_objects (on_dock (fun _ => o') old (objects self)) self, r)
      | None => (self, Done tt)
      end
  | None =>
      match ParamDock_init parameters with
      | Raised e => (self, Raised e)
      | Done new =>
          let dock := List.length (objects self) in
          let objs := objects self ++ [new] in
          let docks' := docks self ++ [(name, dock)] in
          if String.eqb side "left" then
            let dlist := docks_left self ++ [dock] in
            ({| objects :=
                  on_dock (expand (Nat.eqb (List.length dlist) 1)) dock objs;
                docks := docks';
                docks_left := dlist; docks_right := docks_right self;
                active_left :=
                  match docks_left self with
                  | [] => Some dock
                  | _ :: _ => active_left self
                  end;
                active_right := active_right self |}, Done tt)
          else if String.eqb side "right" then
            let dlist := docks_right self ++ [dock] in
            ({| objects :=
                  on_dock (expand (Nat.eqb (List.length dlist) 1)) dock objs;
                docks := docks';
                docks_left := docks_left self; docks_right := dlist;
                active_left := active_left self;
                active_right :=
                  match docks_right self with
                  | [] => Some dock
                  | _ :: _ => active_right self
                  end |}, Done tt)
          else
            ({| objects := objs; docks := docks';
                docks_left := docks_left self; docks_right := docks_right self;
                active_left := active_left self;
                active_right := active_right self |},
             Raised (UnboundLocalError "dlist"))
      end
  end.

(** The new active dock of a side after [dock] has left its list:
<<
    if self.docks_left:
        self.active_left = self.docks_left[0]
        self.active_left.expand()
    else:
        self.active_left = None
>> *)
Definition next_active (dlist : list Dock) (objs : list ParamDock)
  : option Dock * list ParamDock :=
  match dlist with
  | first :: _ => (Some first, on_dock (expand true) first objs)
  | [] => (None, objs)
  end.

Definition same_dock (a : option Dock) (dock : Dock) : bool :=
  match a with
  | Some d => Nat.eqb d dock
  | None => false
  end.

(** [dock_level_changed], the slot of [topLevelChanged]; [dock] is
    [self.sender()]:
<<
    if tl:
        dock.expand()
        if dock in self.docks_left:
            self.docks_left.remove(dock)
        elif dock in self.docks_right:
            self.docks_right.remove(dock)
        else:
            raise ValueError("Dock not found")
        if self.active_left == dock: ...
        elif self.active_right == dock: ...
>> *)
Definition dock_level_changed (dock : Dock) (tl : bool) (self : DockManager)
  : DockManager * outcome unit :=
  if tl then
    let objs := on_dock (expand true) dock (objects self) in
    let removed :=
      if dock_in dock (docks_left self)
      then Some (list_remove dock (docks_left self), docks_right self)
      else if dock_in dock (docks_right self)
      then Some (docks_left self, list_remove dock (docks_right self))
      else None in
    match removed with
    | None => (with_objects objs self, Raised (PyExn ValueError))
    | Some (lefts, rights) =>
        if same_dock (active_left self) dock then
          let '(a, objs') := next_active lefts objs in
          ({| objects := objs'; docks := docks self;
              docks_left := lefts; docks_right := rights;
              active_left := a; active_right := active_right self |}, Done tt)
        else if same_dock (active_right self) dock then
          let '(a, objs') := next_active rights objs in
          ({| objects := objs'; docks := docks self;
              docks_left := lefts; docks_right := rights;
              active_left := active_left self; active_right := a |}, Done tt)
        else
          ({| objects := objs; docks := docks self;
              docks_left := lefts; docks_right := rights;
              active_left := active_left self;
              active_right := active_right self |}, Done tt)
    end
  else (self, Done tt).

(** [Qt.DockWidgetArea] *)
Inductive DockWidgetArea : Type :=
| LeftDockWidgetArea
| RightDockWidgetArea
| TopDockWidgetArea
| BottomDockWidgetArea
| NoDockWidgetArea.

(** The active dock of the side is collapsed for the dock that arrives:
<<
    if self.active_left is not None:
        self.active_left.expand(False)
>> *)
Definition collapse_active (a : option Dock) (objs : list ParamDock) : list ParamDock :=
  match a with
  | Some d => on_dock (expand false) d objs
  | None => objs
  end.

(** [dock_location_changed], the slot of [dockLocationChanged]:
<<
    if loc == Qt.LeftDockWidgetArea:
        self.docks_left.append(dock)
        if self.active_left is not None:
            self.active_left.expand(False)
        self.active_left = dock
    elif loc == Qt.RightDockWidgetArea: ...
    else:
        raise ValueError("Undefined dock location")
>> *)
Definition dock_location_changed (dock : Dock) (loc : DockWidgetArea)
  (self : DockManager) : DockManager * outcome unit :=
  match loc with
  | LeftDockWidgetArea =>
      ({| objects := collapse_active (active_left self) (objects self);
          docks := docks self;
          docks_left := docks_left self ++ [dock]; docks_right := docks_right self;
          active_left := Some dock; active_right := active_right self |}, Done tt)
  | RightDockWidgetArea =>
      ({| objects := collapse_active (active_right self) (objects self);
          docks := docks self;
          docks_left := docks_left self; docks_right := docks_right self ++ [dock];
          active_left := active_left self; active_right := Some dock |}, Done tt)
  | _ => (self, Raised (PyExn ValueError))
  end.

(** Whether the dock that a reference names is collapsed. *)
Definition dock_is_collapsed (dock : Dock) (objs : list ParamDock) : bool :=
  match nth_error objs dock with
  | Some o => is_collapsed o
  | None => false
  end.

(** [dock_user_expanded], the slot of [title_click]:
<<
    if dock.is_collapsed():
        if dock in self.docks_left:
            self.active_left.collapse()
            dock.expand()
            self.active_left = dock
        elif dock in self.docks_right: ...
>>
    With no active dock, [self.active_left.collapse()] raises
    [AttributeError]. *)
Definition dock_user_expanded (dock : Dock) (self : DockManager)
  : DockManager * outcome unit :=
  if dock_is_collapsed dock (objects self) then
    if dock_in dock (docks_left self) then
      match active_left self with
      | None => (self, Raised (PyExn AttributeError))
      | Some a =>
          ({| objects :=
                on_dock (expand true) dock (on_dock (collapse true) a (objects self));
              docks := docks self;
              docks_left := docks_left self; docks_right := docks_right self;
              active_left := Some dock; active_right := active_right self |}, Done tt)
      end
    else if dock_in dock (docks_right self) then
      match active_right self with
      | None => (self, Raised (PyExn AttributeError))
      | Some a =>
          ({| objects :=
                on_dock (expand true) dock (on_dock (collapse true) a (objects self));
              docks := docks self;
              docks_left := docks_left self; docks_right := docks_right self;
              active_left := active_left self; active_right := Some dock |}, Done tt)
      end
    else (self, Done tt)
  else (self, Done tt).

(** What the window and the event loop ask of the manager. *)
Inductive ManagerOp : Type :=
| OpAddDock (name : string) (parameters : list UiElement) (side : string)
| OpRemoveDock (dock : Dock)
| OpClear
| OpLevelChanged (dock : Dock) (tl : bool)
| OpLocationChanged (dock : Dock) (loc : DockWidgetArea)
| OpUserExpanded (dock : Dock).

(** One request; what it raises is lost on the event loop, what it has
    changed before stays. *)
Definition manage (op : ManagerOp) (self : DockManager) : DockManager :=
  match op with
  | OpAddDock name parameters side => fst (add_dock name parameters side self)
  | OpRemoveDock dock => fst (remove_dock dock self)
  | OpClear => clear self
  | OpLevelChanged dock tl => fst (dock_level_changed dock tl self)
  | OpLocationChanged dock loc => fst (dock_location_changed dock loc self)
  | OpUserExpanded dock => fst (dock_user_expanded dock self)
  end.

Definition manage_all (ops : list ManagerOp) (self : DockManager) : DockManager :=
  fold_left (fun m op => manage op m) ops self.

(** A side that has docks has an active dock. *)
Definition sides_active (self : DockManager) : Prop :=
  (docks_left self <> [] -> active_left self <> None) /\
  (docks_right self <> [] -> active_right self <> None).

(** * Properties *)

(** ** Division *)

Lemma pydiv_ok (a b : R) : b <> 0 -> pydiv a b = Ok (a / b).
Proof.
  intros Hb. unfold pydiv.
  destruct (Req_dec_T b 0) as [E | _]; [contradiction | reflexivity].
Qed.

Lemma pydiv_zero (a : R) : pydiv a 0 = Raise ZeroDivisionError.
Proof.
  unfold pydiv. destruct (Req_dec_T 0 0) as [_ | N]; [reflexivity | now elim N].
Qed.

Lemma pydiv_raises (a b : R) (e : exn) :
  pydiv a b = Raise e -> e = ZeroDivisionError /\ b = 0.
Proof.
  unfold pydiv. destruct (Req_dec_T b 0) as [E | _]; intros H; inversion H; auto.
Qed.

Lemma bind_raises {A B : Type} (m : result A) (f : A -> result B) (e : exn) :
  bind m f = Raise e -> m = Raise e \/ exists a, m = Ok a /\ f a = Raise e.
Proof.
  destruct m as [a | e']; simpl; intros H.
  - right. exists a. split; [reflexivity | exact H].
  - left. inversion H. reflexivity.
Qed.

(** ** [uni2diff] *)

Section Uni2diff.
Variable self : K3Supervisor.

Let L := base_length (wheels (robot self)).
Let Rw := radius (wheels (robot self)).

(** The wheel speeds as closed formulas, whenever the radius is not
    zero. *)
Lemma uni2diff_ok (v w : R) :
  Rw <> 0 ->
  uni2diff self (v, w) = Ok ((L * w + 2 * v) / 2 / Rw - L * w / Rw,
                             (L * w + 2 * v) / 2 / Rw).
Proof.
  intros HR. unfold uni2diff. fold L Rw.
  rewrite !pydiv_ok by exact HR. reflexivity.
Qed.

(** A zero radius is the one way for [uni2diff] to raise. *)
Lemma uni2diff_raises (uni : R * R) (e : exn) :
  uni2diff self uni = Raise e -> e = ZeroDivisionError /\ Rw = 0.
Proof.
  destruct uni as [v w]. unfold uni2diff. fold L Rw. intros H.
  apply bind_raises in H. destruct H as [H | [vr [_ H]]].
  - now apply pydiv_raises in H.
  - apply bind_raises in H. destruct H as [H | [q [_ H]]].
    + now apply pydiv_raises in H.
    + discriminate H.
Qed.
End Uni2diff.

(** C2: for a radius [R > 0] and any base length [L], [uni2diff] returns
    [vr = (L*w + 2*v) / (2*R)] and [vl = vr - L*w/R]. *)
Theorem uni2diff_formula (self : K3Supervisor) (v w : R) :
  0 < radius (wheels (robot self)) ->
  let L := base_length (wheels (robot self)) in
  let Rw := radius (wheels (robot self)) in
  let vr := (L * w + 2 * v) / (2 * Rw) in
  let vl := vr - L * w / Rw in
  uni2diff self (v, w) = Ok (vl, vr).
Proof.
  intros HR L Rw vr vl.
  assert (HR0 : Rw <> 0) by (unfold Rw; lra).
  rewrite uni2diff_ok by exact HR0. fold L Rw.
  unfold vl, vr. f_equal. f_equal; field; exact HR0.
Qed.

(** C8: with [w = 0] the two wheel speeds are equal, both [v/R]. *)
Theorem uni2diff_straight (self : K3Supervisor) (v : R) :
  0 < radius (wheels (robot self)) ->
  uni2diff self (v, 0) =
    Ok (v / radius (wheels (robot self)), v / radius (wheels (robot self))).
Proof.
  intros HR.
  assert (HR0 : radius (wheels (robot self)) <> 0) by lra.
  rewrite uni2diff_ok by exact HR0.
  f_equal. f_equal; field; exact HR0.
Qed.



(** ** [estimate_pose] *)

(** What [estimate_pose] does to the supervisor: the tick registers take the
    counts of [robot.wheels]; [pose_est], [robot] and [ui_params] are left as
    they are.  This holds also when a division raises. *)
Lemma estimate_pose_state (self : K3Supervisor) :
  fst (estimate_pose self) =
    {| pose_est := pose_est self;
       robot := robot self;
       ui_params := ui_params self;
       left_ticks := wheel_left_ticks (wheels (robot self));
       right_ticks := wheel_right_ticks (wheels (robot self)) |}.
Proof.
  unfold estimate_pose. destruct (pose_est self) as [x0 y0 th0]. simpl.
  f_equal; lia.
Qed.

(** The returned pose as a closed formula, whenever neither divisor is
    zero. *)
Lemma estimate_pose_ok (self : K3Supervisor) :
  ticks_per_rev (wheels (robot self)) <> 0%Z ->
  base_length (wheels (robot self)) <> 0 ->
  let dtl := (wheel_left_ticks (wheels (robot self)) - left_ticks self)%Z in
  let dtr := (wheel_right_ticks (wheels (robot self)) - right_ticks self)%Z in
  let m_per_tick :=
    2 * PI * radius (wheels (robot self)) / IZR (ticks_per_rev (wheels (robot self))) in
  let dl := IZR dtl * m_per_tick in
  let dr := IZR dtr * m_per_tick in
  let theta_dt := (dr - dl) / base_length (wheels (robot self)) in
  let theta_mid := theta (pose_est self) + theta_dt / 2 in
  let dst := (dr + dl) / 2 in
  snd (estimate_pose self) =
    Ok {| x := x (pose_est self) + dst * cos theta_mid;
          y := y (pose_est self) + dst * sin theta_mid;
          theta := theta (pose_est self) + theta_dt |}.
Proof.
  intros Ht HL. unfold estimate_pose.
  destruct (pose_est self) as [x0 y0 th0]. cbn [snd x y theta].
  assert (Ht' : IZR (ticks_per_rev (wheels (robot self))) <> 0).
  { intros E. apply eq_IZR_R0 in E. contradiction. }
  rewrite (pydiv_ok _ Ht'). cbn [bind].
  rewrite (pydiv_ok _ HL). reflexivity.
Qed.

(** [estimate_pose] raises nothing but [ZeroDivisionError]. *)
Lemma estimate_pose_raises (self : K3Supervisor) (e : exn) :
  snd (estimate_pose self) = Raise e -> e = ZeroDivisionError.
Proof.
  unfold estimate_pose. destruct (pose_est self) as [x0 y0 th0]. cbn [snd].
  intros H. apply bind_raises in H. destruct H as [H | [m [_ H]]].
  - now apply pydiv_raises in H.
  - apply bind_raises in H. destruct H as [H | [t [_ H]]].
    + now apply pydiv_raises in H.
    + discriminate H.
Qed.

(** C1: with [R > 0], [L > 0] and [ticks_per_rev > 0], [estimate_pose]
    returns the pose integrated along the midpoint heading
    [theta_mid = theta_prev + dtheta/2], where [dl] and [dr] are the tick
    deltas times [2*pi*R/ticks_per_rev], [dtheta = (dr - dl)/L] and
    [distance = (dr + dl)/2]. *)
Theorem estimate_pose_midpoint (self : K3Supervisor) :
  0 < radius (wheels (robot self)) ->
  0 < base_length (wheels (robot self)) ->
  (0 < ticks_per_rev (wheels (robot self)))%Z ->
  let x_prev := x (pose_est self) in
  let y_prev := y (pose_est self) in
  let theta_prev := theta (pose_est self) in
  let Rw := radius (wheels (robot self)) in
  let L := base_length (wheels (robot self)) in
  let ticks_per_revolution := IZR (ticks_per_rev (wheels (robot self))) in
  let dtl := IZR (wheel_left_ticks (wheels (robot self)) - left_ticks self) in
  let dtr := IZR (wheel_right_ticks (wheels (robot self)) - right_ticks self) in
  let dl := dtl * (2 * PI * Rw / ticks_per_revolution) in
  let dr := dtr * (2 * PI * Rw / ticks_per_revolution) in
  let dtheta := (dr - dl) / L in
  let theta_mid := theta_prev + dtheta / 2 in
  let distance := (dr + dl) / 2 in
  snd (estimate_pose self) =
    Ok {| x := x_prev + distance * cos theta_mid;
          y := y_prev + distance * sin theta_mid;
          theta := theta_prev + dtheta |}.
Proof.
  intros _ HL Ht. cbv zeta.
  apply estimate_pose_ok; [lia | lra].
Qed.

(** C5: when the encoder counts equal the stored ones, [estimate_pose]
    returns the previous pose, and no division raises (the geometry being
    one with a base length and a tick count per revolution that are not
    zero). *)
Theorem estimate_pose_zero_motion (self : K3Supervisor) :
  ticks_per_rev (wheels (robot self)) <> 0%Z ->
  base_length (wheels (robot self)) <> 0 ->
  wheel_left_ticks (wheels (robot self)) = left_ticks self ->
  wheel_right_ticks (wheels (robot self)) = right_ticks self ->
  snd (estimate_pose self) = Ok (pose_est self).
Proof.
  intros Ht HL El Er.
  rewrite (estimate_pose_ok self Ht HL).
  rewrite El, Er, !Z.sub_diag.
  destruct (pose_est self) as [x0 y0 th0]. cbn [x y theta].
  f_equal. unfold Rdiv. f_equal; ring.
Qed.

(** ** The scenario of the specification *)

Lemma scenario_geometry :
  0 < radius (wheels (robot scenario)) /\
  0 < base_length (wheels (robot scenario)) /\
  (0 < ticks_per_rev (wheels (robot scenario)))%Z.
Proof. simpl. split; [lra | split; [lra | lia]]. Defined.

(** In the scenario the heading turns by [pi/5] (0.6283) and the robot
    advances by [3*pi/100] (0.0942) along the heading [pi/10] (0.3142). *)
Lemma scenario_pose :
  snd (estimate_pose scenario) =
    Ok {| x := 3 * PI / 100 * cos (PI / 10);
          y := 3 * PI / 100 * sin (PI / 10);
          theta := PI / 5 |}.
Proof.
  rewrite estimate_pose_ok by (simpl; try lia; lra).
  cbn [scenario scenario_wheels pose_est robot wheels radius base_length
       ticks_per_rev wheel_left_ticks wheel_right_ticks left_ticks right_ticks
       x y theta].
  rewrite !Z.sub_0_r.
  replace ((IZR 100 * (2 * PI * (2 / 100) / IZR 100)
            - IZR 50 * (2 * PI * (2 / 100) / IZR 100)) / (1 / 10))
    with (PI / 5) by field.
  replace ((IZR 100 * (2 * PI * (2 / 100) / IZR 100)
            + IZR 50 * (2 * PI * (2 / 100) / IZR 100)) / 2)
    with (3 * PI / 100) by field.
  replace (0 + PI / 5 / 2) with (PI / 10) by field.
  rewrite !Rplus_0_l. reflexivity.
Qed.

(** The midpoint heading matters: in the scenario the [x] increment is
    neither the one along the start heading [0] nor the one along the end
    heading [pi/5]. *)
Lemma scenario_not_euler :
  3 * PI / 100 * cos (PI / 10) <> 3 * PI / 100 * cos 0 /\
  3 * PI / 100 * cos (PI / 10) <> 3 * PI / 100 * cos (PI / 5).
Proof.
  pose proof PI_RGT_0 as Hpi.
  assert (H1 : cos (PI / 10) < cos 0) by (apply cos_decreasing_1; lra).
  assert (H2 : cos (PI / 5) < cos (PI / 10)) by (apply cos_decreasing_1; lra).
  split; intros E; apply Rmult_eq_reg_l in E; lra.
Qed.

Lemma estimate_pose_midpoint_witness :
  (0 < radius (wheels (robot scenario)) /\
   0 < base_length (wheels (robot scenario)) /\
   (0 < ticks_per_rev (wheels (robot scenario)))%Z) /\
  exists p : Pose, snd (estimate_pose scenario) = Ok p.
Proof.
  split; [exact scenario_geometry | ].
  destruct scenario_geometry as [HR [HL Ht]].
  eexists. exact (estimate_pose_midpoint scenario HR HL Ht).
Defined.

Lemma uni2diff_formula_witness :
  0 < radius (wheels (robot scenario)) /\
  exists out : R * R, uni2diff scenario (1, 2) = Ok out.
Proof.
  destruct scenario_geometry as [HR _].
  split; [exact HR | ].
  eexists. exact (uni2diff_formula scenario 1 2 HR).
Defined.

Lemma uni2diff_straight_witness :
  0 < radius (wheels (robot scenario)) /\
  uni2diff scenario (1, 0) = Ok (1 / (2 / 100), 1 / (2 / 100)).
Proof.
  destruct scenario_geometry as [HR _].
  split; [exact HR | ].
  exact (uni2diff_straight scenario 1 HR).
Defined.


Lemma estimate_pose_zero_motion_witness :
  (ticks_per_rev (wheels (robot scenario_at_rest)) <> 0%Z /\
   base_length (wheels (robot scenario_at_rest)) <> 0 /\
   wheel_left_ticks (wheels (robot scenario_at_rest)) = left_ticks scenario_at_rest /\
   wheel_right_ticks (wheels (robot scenario_at_rest)) = right_ticks scenario_at_rest) /\
  snd (estimate_pose scenario_at_rest) = Ok {| x := 1; y := 2; theta := 3 |}.
Proof.
  assert (Ht : ticks_per_rev (wheels (robot scenario_at_rest)) <> 0%Z)
    by (simpl; lia).
  assert (HL : base_length (wheels (robot scenario_at_rest)) <> 0)
    by (simpl; lra).
  split; [repeat split; solve [assumption | reflexivity] | ].
  exact (estimate_pose_zero_motion scenario_at_rest Ht HL eq_refl eq_refl).
Defined.

(** C9: in the scenario [estimate_pose] replaces the tick registers by the
    new counts and returns the new pose, whose heading is [pi/5], but
    [pose_est] still holds the previous pose [(0, 0, 0)]: the returned pose
    is not stored. *)
Theorem estimate_pose_not_stored :
  left_ticks (fst (estimate_pose scenario)) = 50%Z /\
  right_ticks (fst (estimate_pose scenario)) = 100%Z /\
  pose_est (fst (estimate_pose scenario)) = {| x := 0; y := 0; theta := 0 |} /\
  exists p : Pose,
    snd (estimate_pose scenario) = Ok p /\
    theta p = PI / 5 /\
    pose_est (fst (estimate_pose scenario)) <> p.
Proof.
  rewrite estimate_pose_state, scenario_pose. cbn.
  repeat split.
  eexists. split; [reflexivity | ]. cbn. split; [reflexivity | ].
  intros E. apply (f_equal theta) in E. cbn in E.
  pose proof PI_RGT_0. lra.
Qed.

(** ** Construction *)

(** A supervisor that has been constructed has a geometry with [R > 0] and
    [L > 0], the one it was given, so that [uni2diff] returns wheel
    speeds. *)
Lemma K3Supervisor_init_ok (robot_pose : Pose) (robot_info : RobotInfo)
  (self : K3Supervisor) :
  K3Supervisor_init robot_pose robot_info = Ok self ->
  robot self = robot_info /\
  pose_est self = robot_pose /\
  0 < radius (wheels robot_info) /\ 0 < base_length (wheels robot_info) /\
  forall uni : R * R, exists out : R * R, uni2diff self uni = Ok out.
Proof.
  unfold K3Supervisor_init, Supervisor_init.
  destruct (Rle_dec (radius (wheels robot_info)) 0) as [HR | HR];
    [discriminate | ].
  destruct (Rle_dec (base_length (wheels robot_info)) 0) as [HL | HL];
    [discriminate | ].
  cbn. intros E. inversion E; subst; clear E. cbn.
  repeat split; try lra.
  intros [v w]. eexists. apply uni2diff_ok. cbn. lra.
Qed.

(** [execute] raises what the base class raises or what [uni2diff] raises,
    which is [ZeroDivisionError]. *)
Lemma execute_raises
  (base_execute : RobotInfo -> R -> K3Supervisor -> K3Supervisor * result (R * R))
  (robot_info : RobotInfo) (dt : R) (self : K3Supervisor) (e : exn) :
  snd (execute base_execute robot_info dt self) = Raise e ->
  snd (base_execute robot_info dt self) = Raise e \/ e = ZeroDivisionError.
Proof.
  unfold execute. destruct (base_execute robot_info dt self) as [self' r].
  cbn [snd]. intros H. apply bind_raises in H.
  destruct H as [H | [uni [_ H]]]; [now left | right].
  now apply uni2diff_raises in H.
Qed.

(** C6: a geometry with [R <= 0] or [L <= 0] makes the construction of the
    supervisor raise [ConfigurationError]; [estimate_pose] and [uni2diff]
    never raise it, and [execute] does not unless the base class's
    [execute] does. *)
Theorem K3Supervisor_init_rejects_geometry (robot_pose : Pose) (robot_info : RobotInfo) :
  radius (wheels robot_info) <= 0 \/ base_length (wheels robot_info) <= 0 ->
  K3Supervisor_init robot_pose robot_info = Raise ConfigurationError /\
  (forall self : K3Supervisor,
      snd (estimate_pose self) <> Raise ConfigurationError) /\
  (forall (self : K3Supervisor) (uni : R * R),
      uni2diff self uni <> Raise ConfigurationError) /\
  (forall base_execute info dt self,
      snd (base_execute info dt self) <> Raise ConfigurationError ->
      snd (execute base_execute info dt self) <> Raise ConfigurationError).
Proof.
  intros Hbad. split; [ | split; [ | split]]; cycle 3.
  - intros base_execute info dt self Hbase E.
    apply execute_raises in E. destruct E as [E | E]; [contradiction | discriminate E].
  - unfold K3Supervisor_init, Supervisor_init.
    destruct (Rle_dec (radius (wheels robot_info)) 0) as [HR | HR];
      [reflexivity | ].
    destruct (Rle_dec (base_length (wheels robot_info)) 0) as [HL | HL];
      [reflexivity | ].
    exfalso. destruct Hbad; contradiction.
  - intros self E. apply estimate_pose_raises in E. discriminate E.
  - intros self uni E. apply uni2diff_raises in E. destruct E as [E _].
    discriminate E.
Qed.

Lemma K3Supervisor_init_rejects_geometry_witness :
  (radius flat_wheels <= 0 \/ base_length flat_wheels <= 0) /\
  K3Supervisor_init {| x := 0; y := 0; theta := 0 |} {| wheels := flat_wheels |}
    = Raise ConfigurationError.
Proof.
  assert (H : radius (wheels {| wheels := flat_wheels |}) <= 0 \/
              base_length (wheels {| wheels := flat_wheels |}) <= 0)
    by (left; simpl; lra).
  split; [exact H | ].
  exact (proj1 (K3Supervisor_init_rejects_geometry
                  {| x := 0; y := 0; theta := 0 |} {| wheels := flat_wheels |} H)).
Defined.

(** ** [set_parameters] of the supervisor *)

(** The supervisor hands the record of [get_parameters] back to the base
    class unchanged, and the gains of that record to the controller. *)
Lemma set_parameters_get_parameters (Controller : Type)
  (base_get : K3Supervisor -> Params)
  (base_set : Params -> K3Supervisor -> K3Supervisor * result unit)
  (gtg_set : Gains -> Controller -> Controller * result unit)
  (self : K3Supervisor) (gtg : Controller) :
  set_parameters base_set gtg_set (get_parameters base_get self) self gtg =
    match base_set (base_get self) self with
    | (self', Ok _) =>
        (self', fst (gtg_set (gains (base_get self)) gtg),
         snd (gtg_set (gains (base_get self)) gtg))
    | (self', Raise e) => (self', gtg, Raise e)
    end.
Proof.
  unfold set_parameters, get_parameters. cbn [pid].
  destruct (base_set (base_get self) self) as [self' [[] | e]]; [ | reflexivity].
  destruct (gtg_set (gains (base_get self)) gtg) as [gtg' r']. reflexivity.
Qed.

(** ** Spin boxes *)

Lemma dbound_inside (lo hi v : R) : lo <= v <= hi -> dbound lo hi v = v.
Proof.
  intros [H1 H2]. unfold dbound.
  destruct (Rlt_dec v lo) as [C | _]; [lra | ].
  destruct (Rlt_dec hi v) as [C | _]; [lra | reflexivity].
Qed.

Lemma dbound_above (lo hi v : R) : lo <= hi -> hi < v -> dbound lo hi v = hi.
Proof.
  intros H1 H2. unfold dbound.
  destruct (Rlt_dec v lo) as [C | _]; [lra | ].
  destruct (Rlt_dec hi v) as [_ | C]; [reflexivity | lra].
Qed.

Lemma dbound_range (lo hi v : R) : lo <= hi -> lo <= dbound lo hi v <= hi.
Proof.
  intros H. unfold dbound.
  destruct (Rlt_dec v lo) as [C | C].
  - destruct (Rlt_dec hi lo); lra.
  - destruct (Rlt_dec hi v); lra.
Qed.

Lemma ibound_inside (lo hi v : Z) : (lo <= v <= hi)%Z -> ibound lo hi v = v.
Proof.
  intros [H1 H2]. unfold ibound.
  destruct (Z.ltb_spec v lo) as [C | _]; [lia | ].
  destruct (Z.ltb_spec hi v) as [C | _]; [lia | reflexivity].
Qed.

(** [create_widgets] hands the declared range on to the spin box when the
    range is not empty, and bounds the declared value by it. *)
Lemma FloatEntry_control_range (ui : PFloat) :
  pf_min_value ui <= pf_max_value ui ->
  FloatEntry_control ui =
    {| dminimum := pf_min_value ui; dmaximum := pf_max_value ui;
       dvalue := dbound (pf_min_value ui) (pf_max_value ui) (pf_value ui) |}.
Proof.
  intros H.
  unfold FloatEntry_control, QDoubleSpinBox_setValue, QDoubleSpinBox_setMaximum,
    QDoubleSpinBox_setMinimum, QDoubleSpinBox_setRange, QDoubleSpinBox_new.
  cbn [dminimum dmaximum dvalue].
  repeat match goal with
         | |- context [Rlt_dec ?a ?b] =>
             lazymatch a with context [Rlt_dec] => fail | _ => idtac end;
             lazymatch b with context [Rlt_dec] => fail | _ => idtac end;
             destruct (Rlt_dec a b)
         end;
    try lra; try reflexivity.
  replace (pf_max_value ui) with (pf_min_value ui) by lra. reflexivity.
Qed.

Lemma gain_entry_created :
  create_widgets (FloatEntry gain_ui None) = (gain_entry, Ok tt).
Proof.
  unfold create_widgets, gain_entry.
  rewrite FloatEntry_control_range by (simpl; lra).
  cbn [gain_ui pf_min_value pf_max_value pf_value].
  rewrite dbound_inside by lra. reflexivity.
Qed.

(** A float entry takes any number: the call raises nothing, and the spin
    box then holds the number bounded by its range. *)
Lemma FloatEntry_set_value_any (v : R) (ui : PFloat) (c : QDoubleSpinBox) :
  exists ui' : PFloat,
    set_value (VFloat v) (FloatEntry ui (Some c)) =
      (FloatEntry ui'
         (Some {| dminimum := dminimum c; dmaximum := dmaximum c;
                  dvalue := dbound (dminimum c) (dmaximum c) v |}),
       Ok tt).
Proof.
  cbn [set_value]. unfold FloatEntry_set_value.
  eexists. reflexivity.
Qed.

(** With a single leaf under [key], the bulk set of [key] is the leaf's own
    [set_value]. *)
Lemma set_value_single (key : string) (v : value) (leaf : Entry) :
  set_value (VPairs [(key, v)]) (Group [(key, leaf)]) =
    (Group [(key, fst (set_value v leaf))], snd (set_value v leaf)).
Proof.
  cbn [set_value set_items leafs_get leafs_put].
  rewrite String.eqb_refl.
  destruct (set_value v leaf) as [leaf' r]. cbn [fst snd].
  destruct r as [[] | e]; reflexivity.
Qed.

(** C4, as the code has it: on a numeric leaf whose spin box has the range
    [[0, 10]], a bulk set of 15 raises nothing and leaves the value 10 in
    the leaf (the value is bounded, not rejected); a bulk set of 10 raises
    nothing and leaves 10 (the upper bound is inclusive). *)
Theorem set_value_bounds_the_value (key : string) (ui : PFloat) (c : QDoubleSpinBox) :
  dminimum c = 0 -> dmaximum c = 10 ->
  (exists e' : Entry,
      set_value (VPairs [(key, VFloat 15)]) (Group [(key, FloatEntry ui (Some c))])
        = (e', Ok tt) /\
      get_value e' = Ok (VPairs [(key, VFloat 10)])) /\
  (exists e' : Entry,
      set_value (VPairs [(key, VFloat 10)]) (Group [(key, FloatEntry ui (Some c))])
        = (e', Ok tt) /\
      get_value e' = Ok (VPairs [(key, VFloat 10)])).
Proof.
  intros Hlo Hhi. split.
  - rewrite set_value_single.
    destruct (FloatEntry_set_value_any 15 ui c) as [ui' E]. rewrite E.
    eexists. split; [reflexivity | ].
    cbn. rewrite Hlo, Hhi, dbound_above by lra. reflexivity.
  - rewrite set_value_single.
    destruct (FloatEntry_set_value_any 10 ui c) as [ui' E]. rewrite E.
    eexists. split; [reflexivity | ].
    cbn. rewrite Hlo, Hhi, dbound_inside by lra. reflexivity.
Qed.

Lemma set_value_bounds_the_value_witness :
  (0 = 0 /\ 10 = 10) /\
  exists e' : Entry,
    set_value (VPairs [("kp"%string, VFloat 15)]) (Group gains_leafs) = (e', Ok tt) /\
    get_value e' = Ok (VPairs [("kp"%string, VFloat 10)]).
Proof.
  split; [split; reflexivity | ].
  exact (proj1 (set_value_bounds_the_value "kp" gain_ui
                  {| dminimum := 0; dmaximum := 10; dvalue := 1 |}
                  eq_refl eq_refl)).
Defined.

(** C4, as the claim has it, fails: the bulk set of 15 on the gain bounded
    by [[0, 10]] does not raise. *)
Lemma set_value_15_not_rejected : ~ rejects gain_entry "kp" 15.
Proof.
  unfold rejects, gain_entry. intros [e H].
  rewrite set_value_single in H.
  destruct (FloatEntry_set_value_any 15 gain_ui
              {| dminimum := 0; dmaximum := 10; dvalue := 1 |}) as [ui' E].
  rewrite E in H. discriminate H.
Qed.

(** ** The dictionary of a group *)

Section LeafsFacts.
Variable A : Type.
Implicit Types (leafs front : list (string * A)) (k : string) (a : A).

Lemma leafs_put_keys k a leafs :
  map fst (leafs_put k a leafs) = map fst leafs.
Proof.
  induction leafs as [ | [k' a'] rest IH]; cbn; [reflexivity | ].
  destruct (String.eqb k k'); cbn; [reflexivity | now rewrite IH].
Qed.

Lemma leafs_get_none k leafs :
  leafs_get k leafs = None <-> ~ In k (map fst leafs).
Proof.
  induction leafs as [ | [k' a'] rest IH]; cbn.
  - split; [intros _ [] | reflexivity].
  - destruct (String.eqb_spec k k') as [E | N].
    + split; [discriminate | intros H; elim H; left; now symmetry].
    + rewrite IH. split.
      * intros H [E | I]; [now elim N | now elim H].
      * intros H I. apply H. now right.
Qed.

Lemma leafs_get_put_none k k' a leafs :
  leafs_get k leafs = None -> leafs_get k (leafs_put k' a leafs) = None.
Proof.
  rewrite !leafs_get_none, leafs_put_keys. trivial.
Qed.

Lemma leafs_get_app k front leafs :
  ~ In k (map fst front) -> leafs_get k (front ++ leafs) = leafs_get k leafs.
Proof.
  induction front as [ | [k' a'] rest IH]; cbn; intros H; [reflexivity | ].
  destruct (String.eqb_spec k k') as [E | N].
  - elim H. left. now symmetry.
  - apply IH. intros I. apply H. now right.
Qed.

Lemma leafs_put_app k a front leafs :
  ~ In k (map fst front) ->
  leafs_put k a (front ++ leafs) = front ++ leafs_put k a leafs.
Proof.
  induction front as [ | [k' a'] rest IH]; cbn; intros H; [reflexivity | ].
  destruct (String.eqb_spec k k') as [E | N].
  - elim H. left. now symmetry.
  - f_equal. apply IH. intros I. apply H. now right.
Qed.
End LeafsFacts.

(** ** The loop of [Group.set_value] *)

Section SetItemsFacts.
Variable V : Type.
Variable set1 : V -> Entry -> Entry * result unit.

Lemma set_items_keys (items : list (string * V)) :
  forall leafs : list (string * Entry),
    map fst (fst (set_items set1 items leafs)) = map fst leafs.
Proof.
  induction items as [ | [k v] rest IH]; intros leafs; cbn; [reflexivity | ].
  destruct (leafs_get k leafs) as [leaf | ]; [ | reflexivity].
  destruct (set1 v leaf) as [leaf' [[] | e]].
  - rewrite IH. apply leafs_put_keys.
  - cbn. apply leafs_put_keys.
Qed.

(** The updates are applied from left to right, up to the first one that
    raises. *)
Lemma set_items_app (before after : list (string * V)) :
  forall leafs : list (string * Entry),
    set_items set1 (before ++ after) leafs =
      match set_items set1 before leafs with
      | (leafs1, Ok _) => set_items set1 after leafs1
      | (leafs1, Raise e) => (leafs1, Raise e)
      end.
Proof.
  induction before as [ | [k v] rest IH]; intros leafs; cbn; [reflexivity | ].
  destruct (leafs_get k leafs) as [leaf | ]; [ | reflexivity].
  destruct (set1 v leaf) as [leaf' [[] | e]]; [apply IH | reflexivity].
Qed.

Lemma set_items_unknown (before after : list (string * V)) (k : string) (v : V)
  (leafs leafs1 : list (string * Entry)) :
  set_items set1 before leafs = (leafs1, Ok tt) ->
  leafs_get k leafs = None ->
  set_items set1 (before ++ (k, v) :: after) leafs = (leafs1, Raise (KeyError k)).
Proof.
  intros Hb Hk. rewrite set_items_app, Hb. cbn.
  assert (Hk1 : leafs_get k leafs1 = None).
  { apply leafs_get_none. apply leafs_get_none in Hk.
    replace leafs1 with (fst (set_items set1 before leafs)) by now rewrite Hb.
    now rewrite set_items_keys. }
  now rewrite Hk1.
Qed.
End SetItemsFacts.

(** The two updates of [gains_update] on the gains: [kp] becomes 2, then
    the key [bogus] raises. *)
Lemma gains_update_kp :
  set_items set_value [("kp"%string, VFloat 2)] gains_leafs =
    ([("kp"%string,
       FloatEntry {| pf_label := "Proportional gain"; pf_min_value := 0;
                     pf_max_value := 10; pf_step := 1; pf_value := 2 |}
                  (Some {| dminimum := 0; dmaximum := 10; dvalue := 2 |}))],
     Ok tt).
Proof.
  unfold gains_leafs, gain_entry.
  cbn [set_items leafs_get leafs_put set_value].
  rewrite String.eqb_refl.
  unfold FloatEntry_set_value, QDoubleSpinBox_setValue.
  cbn [dminimum dmaximum dvalue gain_ui pf_label pf_min_value pf_max_value pf_step].
  rewrite dbound_inside by lra.
  destruct (Req_dec_T 2 1) as [E | _]; [lra | reflexivity].
Defined.

(** C3, as the code has it: when the updates before an unknown key succeed,
    the bulk set raises [KeyError] with that key and leaves the leaves as
    those updates have set them; the updates after the key are not
    applied.  A number for a float leaf is never rejected, whatever the
    range of the leaf. *)
Theorem set_value_unknown_key (leafs leafs1 : list (string * Entry))
  (before after : list (string * value)) (k : string) (v : value) :
  set_items set_value before leafs = (leafs1, Ok tt) ->
  leafs_get k leafs = None ->
  set_value (VPairs (before ++ (k, v) :: after)) (Group leafs)
    = (Group leafs1, Raise (KeyError k)) /\
  (forall (r : R) (ui : PFloat) (c : QDoubleSpinBox),
      snd (set_value (VFloat r) (FloatEntry ui (Some c))) = Ok tt).
Proof.
  intros Hb Hk. split.
  - cbn [set_value].
    now rewrite (@set_items_unknown _ set_value before after k v leafs leafs1 Hb Hk).
  - intros r ui c. destruct (FloatEntry_set_value_any r ui c) as [ui' E].
    now rewrite E.
Qed.

Lemma set_value_unknown_key_witness :
  leafs_get "bogus" gains_leafs = None /\
  exists leafs1 : list (string * Entry),
    set_items set_value [("kp"%string, VFloat 2)] gains_leafs = (leafs1, Ok tt) /\
    set_value (VPairs gains_update) (Group gains_leafs)
      = (Group leafs1, Raise (KeyError "bogus")).
Proof.
  split; [reflexivity | ].
  eexists. split; [exact gains_update_kp | ].
  exact (proj1 (set_value_unknown_key gains_leafs
                  [("kp"%string, VFloat 2)] [] "bogus" (VFloat 0)
                  gains_update_kp eq_refl)).
Defined.

(** C3, as the claim has it, fails: [gains_update] names a key that the
    gains do not have, and the gain [kp] is 2 after the failed call, where
    it was 1 before. *)
Lemma set_value_not_atomic : ~ atomic_on gains_leafs gains_update.
Proof.
  unfold atomic_on. intros H.
  destruct H as [e [_ Hsnap]].
  - exists "bogus"%string, (VFloat 0). split; [right; left; reflexivity | reflexivity].
  - change gains_update
      with ([("kp"%string, VFloat 2)] ++ [("bogus"%string, VFloat 0)]) in Hsnap.
    cbn [set_value] in Hsnap.
    rewrite (@set_items_unknown _ set_value _ [] "bogus" (VFloat 0) _ _
               gains_update_kp eq_refl) in Hsnap.
    cbn in Hsnap. inversion Hsnap as [E]. lra.
Qed.

(** ** Radio buttons *)

Lemma first_checked_in (rs : list QRadioButton) (t : string) :
  first_checked rs = Some t -> In t (map text rs).
Proof.
  induction rs as [ | r rest IH]; cbn; [discriminate | ].
  destruct (radioChecked r).
  - intros E. inversion E. now left.
  - intros E. right. now apply IH.
Qed.

Lemma first_checked_none (rs : list QRadioButton) (i : nat) (r : QRadioButton) :
  first_checked rs = None -> nth_error rs i = Some r -> radioChecked r = false.
Proof.
  revert i. induction rs as [ | r' rest IH]; intros [ | i]; cbn; try discriminate.
  - destruct (radioChecked r') eqn:C; [discriminate | ].
    intros _ E. inversion E; subst. exact C.
  - destruct (radioChecked r'); [discriminate | ]. apply IH.
Qed.

Lemma list_index_in (s : string) (l : list string) :
  In s l -> exists i : nat, list_index s l = Some i /\ nth_error l i = Some s.
Proof.
  induction l as [ | s' rest IH]; cbn; [intros [] | ].
  intros H. destruct (String.eqb_spec s s') as [E | N].
  - exists O. subst. split; reflexivity.
  - destruct H as [E | I]; [now elim N | ].
    destruct (IH I) as [i [Hi Hn]]. exists (S i). rewrite Hi. split; [reflexivity | exact Hn].
Qed.

Lemma uncheck_all_text (rs : list QRadioButton) :
  map text (uncheck_all rs) = map text rs.
Proof. induction rs as [ | r rest IH]; cbn; [reflexivity | now rewrite IH]. Qed.

Lemma check_only_text (rs : list QRadioButton) :
  forall i : nat, map text (check_only i rs) = map text rs.
Proof.
  induction rs as [ | r rest IH]; intros [ | i]; cbn; try reflexivity.
  - now rewrite uncheck_all_text.
  - now rewrite IH.
Qed.

Lemma toggle_at_text (i : nat) (rs : list QRadioButton) :
  map text (toggle_at i rs) = map text rs.
Proof.
  unfold toggle_at. destruct (nth_error rs i) as [r | ]; [ | reflexivity].
  destruct (radioChecked r); [reflexivity | apply check_only_text].
Qed.

Lemma check_only_first (rs : list QRadioButton) :
  forall (i : nat) (r : QRadioButton),
    nth_error rs i = Some r -> first_checked (check_only i rs) = Some (text r).
Proof.
  induction rs as [ | r' rest IH]; intros [ | i] r; cbn; try discriminate.
  - intros E. inversion E. reflexivity.
  - apply IH.
Qed.

(** After [radios[i].toggle()] the checked button that [get_value] finds
    first carries the text of button [i], provided that text was the answer
    of [get_value] before or no button was checked. *)
Lemma toggle_at_first (rs : list QRadioButton) (i : nat) (r : QRadioButton) :
  nth_error rs i = Some r ->
  first_checked rs = Some (text r) \/ first_checked rs = None ->
  first_checked (toggle_at i rs) = Some (text r).
Proof.
  intros Hn Hc. unfold toggle_at. rewrite Hn.
  destruct (radioChecked r) eqn:C.
  - destruct Hc as [Hc | Hc]; [exact Hc | ].
    rewrite (first_checked_none rs i Hc Hn) in C. discriminate C.
  - now apply check_only_first.
Qed.

(** ** The round trip *)

Lemma FloatEntry_round_trips (ui : PFloat) (control : option QDoubleSpinBox) :
  valid_state (FloatEntry ui control) -> round_trips (FloatEntry ui control).
Proof.
  destruct control as [c | ]; cbn; [intros Hc | intros []].
  exists (VFloat (dvalue c)), (FloatEntry ui (Some c)).
  split; [reflexivity | ]. split; [ | split; [reflexivity | exact Hc]].
  cbn. unfold FloatEntry_set_value, QDoubleSpinBox_setValue.
  rewrite dbound_inside by exact Hc. cbn [dvalue].
  destruct (Req_dec_T (dvalue c) (dvalue c)) as [_ | N]; [ | now elim N].
  destruct c; reflexivity.
Qed.

Lemma IntEntry_round_trips (ui : PInt) (control : option QSpinBox) :
  valid_state (IntEntry ui control) -> round_trips (IntEntry ui control).
Proof.
  destruct control as [c | ]; cbn; [intros Hc | intros []].
  exists (VInt (ivalue c)), (IntEntry ui (Some c)).
  split; [reflexivity | ]. split; [ | split; [reflexivity | exact Hc]].
  cbn. unfold IntEntry_set_value, QSpinBox_setValue.
  rewrite ibound_inside by exact Hc. cbn [ivalue].
  rewrite Z.eqb_refl. destruct c; reflexivity.
Qed.

Lemma BoolEntry_round_trips (ui : PBool) (control : option QCheckBox) :
  valid_state (BoolEntry ui control) -> round_trips (BoolEntry ui control).
Proof.
  destruct control as [c | ]; cbn; [intros _ | intros []].
  exists (VBool (isChecked c)), (BoolEntry ui (Some c)).
  destruct c; cbn. repeat split.
Qed.

Lemma ChoiceEntry_round_trips (ui : PSelect) (radios : option (list QRadioButton)) :
  valid_state (ChoiceEntry ui radios) -> round_trips (ChoiceEntry ui radios).
Proof.
  destruct radios as [rs | ]; cbn [valid_state]; [intros [Htext Hsel] | intros []].
  (* the answer of get_value and where it comes from *)
  assert (Hans : exists t : string,
             get_value (ChoiceEntry ui (Some rs)) = Ok (VStr t) /\
             In t (ps_value_list ui) /\
             (first_checked rs = Some t \/ first_checked rs = None)).
  { cbn. destruct (first_checked rs) as [t | ] eqn:C.
    - exists t. split; [reflexivity | ]. split; [ | now left].
      rewrite <- Htext. now apply first_checked_in.
    - exists (ps_value ui). split; [reflexivity | ]. split; [ | now right].
      destruct Hsel as [N | I]; [now elim N | exact I]. }
  destruct Hans as [t [Hget [Hin Hc]]].
  destruct (list_index_in t (ps_value_list ui) Hin) as [i [Hi Hn]].
  assert (Hr : exists r : QRadioButton, nth_error rs i = Some r /\ text r = t).
  { rewrite <- Htext in Hn. rewrite nth_error_map in Hn.
    destruct (nth_error rs i) as [r | ]; [ | discriminate Hn].
    exists r. split; [reflexivity | ]. cbn in Hn. now inversion Hn. }
  destruct Hr as [r [Hnr Ht]]. subst t.
  pose proof (toggle_at_first rs i Hnr Hc) as Hfirst.
  eexists. eexists. split; [exact Hget | ].
  cbn [set_value]. unfold ChoiceEntry_set_value. cbn [ps_value_list].
  rewrite Hi, Hnr.
  split; [reflexivity | ]. split.
  - cbn. now rewrite Hfirst.
  - cbn. split.
    + now rewrite toggle_at_text.
    + left. rewrite Hfirst. discriminate.
Qed.

(** The loop of [Group.set_value] over the answer of [Group.get_value]:
    [front] holds the leafs that the loop has passed, [leafs] those that it
    has yet to reach. *)
Lemma set_items_round_trips (leafs : list (string * Entry)) :
  forall front : list (string * Entry),
    NoDup (map fst (front ++ leafs)) ->
    all_leafs round_trips leafs ->
    exists (items : list (string * value)) (leafs' : list (string * Entry)),
      get_items get_value leafs = Ok items /\
      set_items set_value items (front ++ leafs) = (front ++ leafs', Ok tt) /\
      get_items get_value leafs' = Ok items /\
      map fst leafs' = map fst leafs /\
      all_leafs valid_state leafs'.
Proof.
  induction leafs as [ | [k e] rest IH]; intros front Hnd Hall.
  - exists [], []. cbn. repeat split.
  - destruct Hall as [[v [e' [Hget [Hset [Hget' Hval]]]]] Hall].
    assert (Hk : ~ In k (map fst front)).
    { rewrite map_app in Hnd. cbn in Hnd.
      apply NoDup_remove_2 in Hnd. intros I. apply Hnd.
      apply in_or_app. now left. }
    destruct (IH (front ++ [(k, e')])) as [items [rest' [Hg [Hs [Hg' [Hkeys Hv]]]]]].
    + rewrite <- app_assoc. cbn.
      rewrite map_app in Hnd |- *. exact Hnd.
    + exact Hall.
    + exists ((k, v) :: items), ((k, e') :: rest').
      split; [cbn; now rewrite Hget, Hg | ].
      split.
      * cbn [set_items].
        rewrite leafs_get_app by exact Hk. cbn [leafs_get]. rewrite String.eqb_refl.
        rewrite Hset.
        rewrite leafs_put_app by exact Hk. cbn [leafs_put]. rewrite String.eqb_refl.
        rewrite <- app_assoc in Hs. cbn in Hs. rewrite Hs.
        rewrite <- app_assoc. reflexivity.
      * split; [cbn; now rewrite Hget', Hg' | ].
        split; [cbn; now rewrite Hkeys | ].
        cbn. split; assumption.
Qed.

Lemma all_leafs_round_trips (leafs : list (string * Entry)) :
  Forall (fun kv => valid_state (snd kv) -> round_trips (snd kv)) leafs ->
  all_leafs valid_state leafs -> all_leafs round_trips leafs.
Proof.
  induction 1 as [ | [k e] rest Hhead _ IH]; cbn; [trivial | ].
  intros [Hv Hrest]. split; [now apply Hhead | now apply IH].
Qed.

Lemma valid_state_round_trips (e : Entry) : valid_state e -> round_trips e.
Proof.
  induction e as [ui c | ui c | ui c | ui rs | leafs IH] using Entry_leafs_ind.
  - apply FloatEntry_round_trips.
  - apply IntEntry_round_trips.
  - apply BoolEntry_round_trips.
  - apply ChoiceEntry_round_trips.
  - cbn [valid_state]. intros [Hnd Hall].
    destruct (set_items_round_trips leafs [] Hnd (all_leafs_round_trips IH Hall))
      as [items [leafs' [Hg [Hs [Hg' [Hkeys Hv]]]]]].
    cbn [app] in Hs.
    exists (VPairs items), (Group leafs').
    split; [cbn; now rewrite Hg | ].
    split; [cbn; now rewrite Hs | ].
    split; [cbn; now rewrite Hg' | ].
    cbn. split; [now rewrite Hkeys | exact Hv].
Qed.

(** C7: in a valid state, [set_value] called with what [get_value] returns
    raises nothing and is a no-op on the values: [get_value] returns the
    same afterwards. *)
Theorem set_value_get_value_round_trip (e : Entry) :
  valid_state e ->
  exists (v : value) (e' : Entry),
    get_value e = Ok v /\
    set_value v e = (e', Ok tt) /\
    get_value e' = Ok v.
Proof.
  intros H. destruct (valid_state_round_trips e H) as [v [e' [Hg [Hs [Hg' _]]]]].
  exists v, e'. repeat split; assumption.
Qed.

Lemma sample_tree_valid : valid_state sample_tree.
Proof.
  cbn. repeat split; try lra; try lia.
  - repeat constructor; cbn; intuition discriminate.
  - left. discriminate.
  - repeat constructor; cbn; intuition discriminate.
Defined.

Lemma sample_tree_value :
  get_value sample_tree =
    Ok (VPairs [("kp"%string, VFloat 1);
                ("on"%string, VBool true);
                ("laps"%string, VInt 3);
                ("mode"%string, VStr "hold");
                ("goal"%string, VPairs [("x"%string, VFloat (-5))])]).
Proof. reflexivity. Qed.

Lemma set_value_get_value_round_trip_witness :
  valid_state sample_tree /\
  exists (v : value) (e' : Entry),
    get_value sample_tree = Ok v /\
    set_value v sample_tree = (e', Ok tt) /\
    get_value e' = Ok v.
Proof.
  split; [exact sample_tree_valid | ].
  exact (set_value_get_value_round_trip sample_tree sample_tree_valid).
Defined.

(** ** What [create_widgets] establishes *)

Lemma first_checked_app_some (rs tail : list QRadioButton) :
  first_checked rs <> None -> first_checked (rs ++ tail) <> None.
Proof.
  induction rs as [ | r rest IH]; cbn; [intros N; now elim N | ].
  destruct (radioChecked r); [discriminate | exact IH].
Qed.

Lemma first_checked_uncheck_all (rs : list QRadioButton) (r : QRadioButton) :
  radioChecked r = true -> first_checked (uncheck_all rs ++ [r]) = Some (text r).
Proof.
  intros C. induction rs as [ | r' rest IH]; cbn; [now rewrite C | exact IH].
Qed.

Lemma make_radios_text (selected : string) (value_list : list string) :
  forall radios : list QRadioButton,
    map text (make_radios selected value_list radios) = map text radios ++ value_list.
Proof.
  induction value_list as [ | s rest IH]; intros radios; cbn.
  - now rewrite app_nil_r.
  - destruct (String.eqb s selected); rewrite IH, map_app; cbn;
      rewrite ?uncheck_all_text, <- app_assoc; reflexivity.
Qed.

Lemma make_radios_checked (selected : string) (value_list : list string) :
  forall radios : list QRadioButton,
    first_checked radios <> None \/ In selected value_list ->
    first_checked (make_radios selected value_list radios) <> None.
Proof.
  induction value_list as [ | s rest IH]; intros radios H; cbn.
  - destruct H as [H | []]. exact H.
  - destruct (String.eqb_spec s selected) as [E | N]; apply IH.
    + left. rewrite first_checked_uncheck_all by reflexivity. discriminate.
    + destruct H as [H | [E | I]].
      * left. now apply first_checked_app_some.
      * now elim N.
      * now right.
Qed.

(** A float entry with a declared range that is not empty is in a valid
    state once its widget is created; so is a choice, which raises on the
    way, and a check box. *)
Lemma create_widgets_valid_float (ui : PFloat) (control : option QDoubleSpinBox) :
  pf_min_value ui <= pf_max_value ui ->
  valid_state (fst (create_widgets (FloatEntry ui control))).
Proof.
  intros H. cbn [create_widgets fst valid_state].
  rewrite FloatEntry_control_range by exact H. cbn [dminimum dmaximum dvalue].
  now apply dbound_range.
Qed.

Lemma create_widgets_valid_choice (ui : PSelect) (radios : option (list QRadioButton)) :
  In (ps_value ui) (ps_value_list ui) ->
  valid_state (fst (create_widgets (ChoiceEntry ui radios))) /\
  snd (create_widgets (ChoiceEntry ui radios)) = Raise AttributeError.
Proof.
  intros Hin. cbn. split; [split | reflexivity].
  - apply make_radios_text.
  - left. apply make_radios_checked. now right.
Qed.

Lemma create_widgets_valid_bool (ui : PBool) (control : option QCheckBox) :
  valid_state (fst (create_widgets (BoolEntry ui control))).
Proof. exact I. Qed.

(** ** The sample tree at work *)

Lemma sample_tree_set_mode :
  exists e' : Entry,
    set_value (VPairs [("mode"%string, VStr "pid")]) sample_tree = (e', Ok tt) /\
    get_value e' =
      Ok (VPairs [("kp"%string, VFloat 1);
                  ("on"%string, VBool true);
                  ("laps"%string, VInt 3);
                  ("mode"%string, VStr "pid");
                  ("goal"%string, VPairs [("x"%string, VFloat (-5))])]).
Proof. eexists. split; reflexivity. Qed.

(** A string that is no choice raises [ValueError], after [ui.value] has
    taken it. *)
Lemma sample_tree_set_mode_unknown :
  exists e' : Entry,
    set_value (VPairs [("mode"%string, VStr "fly")]) sample_tree
      = (e', Raise ValueError) /\
    leafs_get "mode" (match e' with Group leafs => leafs | _ => [] end)
      = Some (ChoiceEntry
                {| ps_label := "Mode"; ps_value_list := ["pid"%string; "hold"%string];
                   ps_value := "fly" |}
                (Some (make_radios "hold" ["pid"%string; "hold"%string] []))).
Proof. eexists. split; reflexivity. Qed.

(** * Further properties of the supervisor *)

(** A zero divisor makes [estimate_pose] raise. *)
Lemma estimate_pose_zero_divisor (self : K3Supervisor) :
  ticks_per_rev (wheels (robot self)) = 0%Z \/
  base_length (wheels (robot self)) = 0 ->
  snd (estimate_pose self) = Raise ZeroDivisionError.
Proof.
  intros H.
  unfold estimate_pose. destruct (pose_est self) as [x0 y0 th0]. cbn [snd].
  destruct (Z.eq_dec (ticks_per_rev (wheels (robot self))) 0) as [Ht | Ht].
  - rewrite Ht, pydiv_zero. reflexivity.
  - destruct H as [H | H]; [contradiction | ].
    rewrite pydiv_ok by (intros E; apply eq_IZR_R0 in E; contradiction).
    cbn [bind]. rewrite H, pydiv_zero. reflexivity.
Qed.

(** When [estimate_pose] returns a pose, neither divisor is zero. *)
Lemma estimate_pose_returns (self : K3Supervisor) (p : Pose) :
  snd (estimate_pose self) = Ok p ->
  ticks_per_rev (wheels (robot self)) <> 0%Z /\
  base_length (wheels (robot self)) <> 0.
Proof.
  intros Hp. split; intros E.
  - rewrite estimate_pose_zero_divisor in Hp by now left. discriminate Hp.
  - rewrite estimate_pose_zero_divisor in Hp by now right. discriminate Hp.
Qed.

(** X1: [estimate_pose] raises exactly when [ticks_per_rev] or the base
    length is zero, and then [ZeroDivisionError]; the tick registers have
    taken the new counts all the same. *)
Theorem estimate_pose_fault (self : K3Supervisor) :
  ((exists e : exn, snd (estimate_pose self) = Raise e) <->
   (ticks_per_rev (wheels (robot self)) = 0%Z \/
    base_length (wheels (robot self)) = 0)) /\
  (forall e : exn, snd (estimate_pose self) = Raise e -> e = ZeroDivisionError) /\
  left_ticks (fst (estimate_pose self)) = wheel_left_ticks (wheels (robot self)) /\
  right_ticks (fst (estimate_pose self)) = wheel_right_ticks (wheels (robot self)).
Proof.
  split; [ | split; [ | rewrite estimate_pose_state; split; reflexivity]].
  - split.
    + intros [e He].
      destruct (Z.eq_dec (ticks_per_rev (wheels (robot self))) 0) as [Ht | Ht];
        [now left | ].
      destruct (Req_dec_T (base_length (wheels (robot self))) 0) as [HL | HL];
        [now right | ].
      rewrite (estimate_pose_ok self Ht HL) in He. discriminate He.
    + intros H. exists ZeroDivisionError. now apply estimate_pose_zero_divisor.
  - intros e. apply estimate_pose_raises.
Qed.

Lemma estimate_pose_fault_witness :
  exists e : exn,
    snd (estimate_pose
           {| pose_est := {| x := 0; y := 0; theta := 0 |};
              robot := {| wheels := {| radius := 1; base_length := 0;
                                       ticks_per_rev := 100;
                                       wheel_left_ticks := 5;
                                       wheel_right_ticks := 7 |} |};
              ui_params := get_default_parameters;
              left_ticks := 0; right_ticks := 0 |}) = Raise e.
Proof.
  apply (proj2 (proj1 (estimate_pose_fault _))). right. reflexivity.
Defined.

(** X2: a second [estimate_pose] on the same encoder counts returns the
    stored pose unchanged: the registers have taken the counts at the first
    call, so the motion is gone unless the caller has stored the pose that
    the first call returned. *)
Theorem estimate_pose_twice (self : K3Supervisor) :
  ticks_per_rev (wheels (robot self)) <> 0%Z ->
  base_length (wheels (robot self)) <> 0 ->
  snd (estimate_pose (fst (estimate_pose self))) = Ok (pose_est self).
Proof.
  intros Ht HL. rewrite estimate_pose_state.
  rewrite estimate_pose_ok by assumption.
  cbn [robot wheels left_ticks right_ticks pose_est].
  rewrite !Z.sub_diag.
  destruct (pose_est self) as [x0 y0 th0]. cbn [x y theta].
  f_equal. unfold Rdiv. f_equal; ring.
Qed.

Lemma estimate_pose_twice_witness :
  (ticks_per_rev (wheels (robot scenario)) <> 0%Z /\
   base_length (wheels (robot scenario)) <> 0) /\
  snd (estimate_pose (fst (estimate_pose scenario))) =
    Ok {| x := 0; y := 0; theta := 0 |}.
Proof.
  assert (Ht : ticks_per_rev (wheels (robot scenario)) <> 0%Z) by (simpl; lia).
  assert (HL : base_length (wheels (robot scenario)) <> 0) by (simpl; lra).
  split; [split; assumption | ].
  exact (estimate_pose_twice scenario Ht HL).
Defined.

(** X3: when the two wheels turn by opposite tick counts the robot turns on
    the spot: [x] and [y] are unchanged and the heading changes by
    [2*dr/L]. *)
Theorem estimate_pose_turn_on_spot (self : K3Supervisor) :
  ticks_per_rev (wheels (robot self)) <> 0%Z ->
  base_length (wheels (robot self)) <> 0 ->
  (wheel_left_ticks (wheels (robot self)) - left_ticks self =
   - (wheel_right_ticks (wheels (robot self)) - right_ticks self))%Z ->
  let m_per_tick :=
    2 * PI * radius (wheels (robot self)) / IZR (ticks_per_rev (wheels (robot self))) in
  let dr :=
    IZR (wheel_right_ticks (wheels (robot self)) - right_ticks self) * m_per_tick in
  snd (estimate_pose self) =
    Ok {| x := x (pose_est self);
          y := y (pose_est self);
          theta := theta (pose_est self) + 2 * dr / base_length (wheels (robot self)) |}.
Proof.
  intros Ht HL Hopp m_per_tick dr.
  rewrite (estimate_pose_ok self Ht HL). rewrite Hopp, opp_IZR.
  fold m_per_tick. fold dr.
  replace ((dr + - IZR (wheel_right_ticks (wheels (robot self)) - right_ticks self)
                 * m_per_tick) / 2) with 0 by (unfold dr; field).
  f_equal. f_equal; try ring.
  unfold dr. field. exact HL.
Qed.

(** X4: when the two wheels turn by the same tick count the robot goes
    straight: the heading is unchanged and the pose advances by the wheel
    distance along it. *)
Theorem estimate_pose_straight (self : K3Supervisor) :
  ticks_per_rev (wheels (robot self)) <> 0%Z ->
  base_length (wheels (robot self)) <> 0 ->
  (wheel_left_ticks (wheels (robot self)) - left_ticks self =
   wheel_right_ticks (wheels (robot self)) - right_ticks self)%Z ->
  let m_per_tick :=
    2 * PI * radius (wheels (robot self)) / IZR (ticks_per_rev (wheels (robot self))) in
  let d :=
    IZR (wheel_right_ticks (wheels (robot self)) - right_ticks self) * m_per_tick in
  snd (estimate_pose self) =
    Ok {| x := x (pose_est self) + d * cos (theta (pose_est self));
          y := y (pose_est self) + d * sin (theta (pose_est self));
          theta := theta (pose_est self) |}.
Proof.
  intros Ht HL Hsame m_per_tick d.
  rewrite (estimate_pose_ok self Ht HL). rewrite Hsame.
  fold m_per_tick. fold d.
  replace ((d - d) / base_length (wheels (robot self))) with 0
    by (field; exact HL).
  replace ((d + d) / 2) with d by field.
  replace (theta (pose_est self) + 0 / 2) with (theta (pose_est self)) by field.
  rewrite Rplus_0_r. reflexivity.
Qed.

Lemma estimate_pose_turn_on_spot_witness :
  (ticks_per_rev (wheels (robot scenario_spin)) <> 0%Z /\
   base_length (wheels (robot scenario_spin)) <> 0 /\
   (wheel_left_ticks (wheels (robot scenario_spin)) - left_ticks scenario_spin =
    - (wheel_right_ticks (wheels (robot scenario_spin)) - right_ticks scenario_spin))%Z) /\
  exists p : Pose,
    snd (estimate_pose scenario_spin) = Ok p /\ x p = 1 /\ y p = 2.
Proof.
  assert (Ht : ticks_per_rev (wheels (robot scenario_spin)) <> 0%Z) by (simpl; lia).
  assert (HL : base_length (wheels (robot scenario_spin)) <> 0) by (simpl; lra).
  split; [split; [exact Ht | split; [exact HL | reflexivity]] | ].
  eexists. split.
  - exact (estimate_pose_turn_on_spot scenario_spin Ht HL eq_refl).
  - split; reflexivity.
Defined.

Lemma estimate_pose_straight_witness :
  (ticks_per_rev (wheels (robot scenario_ahead)) <> 0%Z /\
   base_length (wheels (robot scenario_ahead)) <> 0 /\
   (wheel_left_ticks (wheels (robot scenario_ahead)) - left_ticks scenario_ahead =
    wheel_right_ticks (wheels (robot scenario_ahead)) - right_ticks scenario_ahead)%Z) /\
  exists p : Pose,
    snd (estimate_pose scenario_ahead) = Ok p /\ theta p = 0.
Proof.
  assert (Ht : ticks_per_rev (wheels (robot scenario_ahead)) <> 0%Z) by (simpl; lia).
  assert (HL : base_length (wheels (robot scenario_ahead)) <> 0) by (simpl; lra).
  split; [split; [exact Ht | split; [exact HL | reflexivity]] | ].
  eexists. split.
  - exact (estimate_pose_straight scenario_ahead Ht HL eq_refl).
  - reflexivity.
Defined.

(** ** [uni2diff] *)

(** X7: [uni2diff] raises exactly when the wheel radius is zero, and then
    [ZeroDivisionError]; a zero or negative base length is no fault. *)
Theorem uni2diff_fault (self : K3Supervisor) (uni : R * R) :
  ((exists e : exn, uni2diff self uni = Raise e) <->
   radius (wheels (robot self)) = 0) /\
  (forall e : exn, uni2diff self uni = Raise e -> e = ZeroDivisionError).
Proof.
  split; [split | ].
  - intros [e He]. now apply uni2diff_raises in He.
  - intros H0. exists ZeroDivisionError. destruct uni as [v w].
    unfold uni2diff. rewrite H0, pydiv_zero. reflexivity.
  - intros e He. now apply uni2diff_raises in He.
Qed.

Lemma uni2diff_fault_witness :
  exists e : exn,
    uni2diff {| pose_est := {| x := 0; y := 0; theta := 0 |};
                robot := {| wheels := flat_wheels |};
                ui_params := get_default_parameters;
                left_ticks := 0; right_ticks := 0 |} (1, 2) = Raise e.
Proof.
  apply (proj2 (proj1 (uni2diff_fault _ (1, 2)))). reflexivity.
Defined.

(** X10: with a base length of zero the angular velocity has no effect:
    both wheels get [v/R], whatever [w] is. *)
Theorem uni2diff_no_base (self : K3Supervisor) (v w : R) :
  radius (wheels (robot self)) <> 0 ->
  base_length (wheels (robot self)) = 0 ->
  uni2diff self (v, w) =
    Ok (v / radius (wheels (robot self)), v / radius (wheels (robot self))).
Proof.
  intros HR HL. rewrite uni2diff_ok by exact HR. rewrite HL.
  f_equal. f_equal; field; exact HR.
Qed.

Lemma uni2diff_no_base_witness :
  (1 <> 0 /\ 0 = 0) /\
  uni2diff {| pose_est := {| x := 0; y := 0; theta := 0 |};
              robot := {| wheels := {| radius := 1; base_length := 0;
                                       ticks_per_rev := 100;
                                       wheel_left_ticks := 0;
                                       wheel_right_ticks := 0 |} |};
              ui_params := get_default_parameters;
              left_ticks := 0; right_ticks := 0 |} (3, 7)
    = Ok (3 / 1, 3 / 1).
Proof.
  assert (H1 : 1 <> 0) by lra.
  split; [split; [exact H1 | reflexivity] | ].
  exact (uni2diff_no_base
           {| pose_est := {| x := 0; y := 0; theta := 0 |};
              robot := {| wheels := {| radius := 1; base_length := 0;
                                       ticks_per_rev := 100;
                                       wheel_left_ticks := 0;
                                       wheel_right_ticks := 0 |} |};
              ui_params := get_default_parameters;
              left_ticks := 0; right_ticks := 0 |} 3 7 H1 eq_refl).
Defined.

(** * Further properties of the parameter entries *)

(** ** What [set_value] leaves alone *)

Section LeafsMoreFacts.
Variable A : Type.
Implicit Types (leafs : list (string * A)) (k : string) (a : A).

Lemma leafs_get_put_other k k' a leafs :
  k <> k' -> leafs_get k' (leafs_put k a leafs) = leafs_get k' leafs.
Proof.
  intros N. induction leafs as [ | [k0 a0] rest IH]; cbn; [reflexivity | ].
  destruct (String.eqb_spec k k0) as [E | N0]; cbn.
  - subst k0. destruct (String.eqb_spec k' k) as [E' | _]; [ | reflexivity].
    now elim N.
  - destruct (String.eqb k' k0); [reflexivity | exact IH].
Qed.

Lemma leafs_get_put_same k a a0 leafs :
  leafs_get k leafs = Some a0 -> leafs_get k (leafs_put k a leafs) = Some a.
Proof.
  induction leafs as [ | [k0 a1] rest IH]; cbn; [discriminate | ].
  destruct (String.eqb_spec k k0) as [E | N]; cbn.
  - intros _. subst k0. now rewrite String.eqb_refl.
  - intros H. destruct (String.eqb_spec k k0) as [E | _]; [now elim N | now apply IH].
Qed.

Lemma leafs_put_put_other k k' a a' leafs :
  k <> k' ->
  leafs_put k a (leafs_put k' a' leafs) = leafs_put k' a' (leafs_put k a leafs).
Proof.
  intros N. induction leafs as [ | [k0 a0] rest IH]; cbn; [reflexivity | ].
  destruct (String.eqb_spec k' k0) as [E' | N']; destruct (String.eqb_spec k k0) as [E | N0];
    cbn.
  - subst. now elim N.
  - subst k0. rewrite String.eqb_refl.
    destruct (String.eqb_spec k k') as [E | _]; [now elim N | reflexivity].
  - subst k0. rewrite String.eqb_refl.
    destruct (String.eqb_spec k' k) as [E | _]; [now elim N; symmetry | reflexivity].
  - destruct (String.eqb_spec k k0) as [E | _]; [now elim N0 | ].
    destruct (String.eqb_spec k' k0) as [E | _]; [now elim N' | ].
    now rewrite IH.
Qed.
End LeafsMoreFacts.

Lemma map_leafs_put (B : Type) (f : Entry -> B) (k : string) (leaf leaf' : Entry)
  (leafs : list (string * Entry)) :
  leafs_get k leafs = Some leaf -> f leaf' = f leaf ->
  map_leafs f (leafs_put k leaf' leafs) = map_leafs f leafs.
Proof.
  intros Hget Hf. induction leafs as [ | [k0 a0] rest IH]; cbn in *; [reflexivity | ].
  destruct (String.eqb k k0); cbn.
  - inversion Hget; subst. now rewrite Hf.
  - now rewrite IH.
Qed.

Lemma map_leafs_keys (A B : Type) (f : A -> B) (leafs : list (string * A)) :
  map fst (map_leafs f leafs) = map fst leafs.
Proof.
  induction leafs as [ | [k a] rest IH]; cbn; [reflexivity | now rewrite IH].
Qed.

Lemma set_items_skeleton (items : list (string * value)) :
  Forall (fun kv => forall e, skeleton (fst (set_value (snd kv) e)) = skeleton e) items ->
  forall leafs : list (string * Entry),
    map_leafs skeleton (fst (set_items set_value items leafs)) = map_leafs skeleton leafs.
Proof.
  induction 1 as [ | [k v] rest Hv _ IH]; intros leafs; cbn; [reflexivity | ].
  destruct (leafs_get k leafs) as [leaf | ] eqn:Hget; [ | reflexivity].
  cbn in Hv. specialize (Hv leaf).
  destruct (set_value v leaf) as [leaf' r]. cbn in Hv.
  destruct r as [[] | e].
  - rewrite IH. now apply map_leafs_put with (leaf := leaf).
  - cbn. now apply map_leafs_put with (leaf := leaf).
Qed.

(** X11: whatever the value and whatever the outcome, [set_value] changes
    values only: the keys of every group and their order, the kind of every
    entry, what the descriptors declare, the range of every spin box and
    the texts of the radio buttons are after the call what they were
    before. *)
Theorem set_value_skeleton (v : value) :
  forall e : Entry, skeleton (fst (set_value v e)) = skeleton e.
Proof.
  induction v as [r | z | b | s | items IH] using value_items_ind; intros e.
  - destruct e as [ui [c | ] | ui [c | ] | ui [c | ] | ui rs | leafs]; try reflexivity.
    cbn. unfold FloatEntry_set_value. cbn.
    destruct (Req_dec_T _ _); reflexivity.
  - destruct e as [ui [c | ] | ui [c | ] | ui [c | ] | ui rs | leafs]; try reflexivity.
    + cbn. unfold FloatEntry_set_value. cbn.
      destruct (Req_dec_T _ _); reflexivity.
    + cbn. unfold IntEntry_set_value. cbn.
      destruct (Z.eqb _ _); reflexivity.
  - destruct e as [ui [c | ] | ui [c | ] | ui [c | ] | ui rs | leafs]; reflexivity.
  - destruct e as [ui [c | ] | ui [c | ] | ui [c | ] | ui rs | leafs]; try reflexivity.
    cbn. unfold ChoiceEntry_set_value. cbn.
    destruct (list_index s (ps_value_list ui)) as [i | ]; [ | reflexivity].
    destruct rs as [rs | ]; [ | reflexivity].
    destruct (nth_error rs i); [ | reflexivity].
    cbn. now rewrite toggle_at_text.
  - destruct e as [ui [c | ] | ui [c | ] | ui [c | ] | ui rs | leafs]; try reflexivity.
    cbn [set_value].
    pose proof (set_items_skeleton IH leafs) as H.
    destruct (set_items set_value items leafs) as [leafs' r]. cbn in *.
    now rewrite H.
Qed.

(** ** The widgets keep a value of their domain *)

Lemma ibound_range (lo hi v : Z) : (lo <= hi)%Z -> (lo <= ibound lo hi v <= hi)%Z.
Proof.
  intros H. unfold ibound.
  destruct (Z.ltb_spec v lo); destruct (Z.ltb_spec hi lo);
    destruct (Z.ltb_spec hi v); lia.
Qed.








(** ** Which leaves an update changes *)

Lemma set_items_frame (V : Type) (set1 : V -> Entry -> Entry * result unit)
  (items : list (string * V)) (k' : string) :
  ~ In k' (map fst items) ->
  forall leafs : list (string * Entry),
    leafs_get k' (fst (set_items set1 items leafs)) = leafs_get k' leafs.
Proof.
  induction items as [ | [k v] rest IH]; intros Hk leafs; cbn; [reflexivity | ].
  cbn in Hk.
  destruct (leafs_get k leafs) as [leaf | ]; [ | reflexivity].
  destruct (set1 v leaf) as [leaf' [[] | e]].
  - rewrite IH by (intros I; apply Hk; now right).
    apply leafs_get_put_other. intros E. apply Hk. now left.
  - cbn. apply leafs_get_put_other. intros E. apply Hk. now left.
Qed.

(** X13: [Group.set_value] touches only the leaves that the update names:
    the entry under a key that is not among the keys of the update is after
    the call, returned or raised, the entry that it was before. *)
Theorem set_value_frame (items : list (string * value)) (leafs : list (string * Entry))
  (k' : string) :
  ~ In k' (map fst items) ->
  exists leafs' : list (string * Entry),
    fst (set_value (VPairs items) (Group leafs)) = Group leafs' /\
    leafs_get k' leafs' = leafs_get k' leafs.
Proof.
  intros Hk. cbn [set_value].
  pose proof (@set_items_frame _ set_value items k' Hk leafs) as H.
  destruct (set_items set_value items leafs) as [leafs' r]. cbn in *.
  exists leafs'. split; [reflexivity | exact H].
Qed.

Lemma set_value_frame_witness :
  ~ In "on"%string (map fst gains_update) /\
  exists leafs' : list (string * Entry),
    fst (set_value (VPairs gains_update) sample_tree) = Group leafs' /\
    leafs_get "on" leafs' =
      Some (BoolEntry {| pb_label := "On"; pb_value := true |}
                      (Some {| isChecked := true |})).
Proof.
  assert (H : ~ In "on"%string (map fst gains_update)).
  { cbn. intros [E | [E | []]]; discriminate E. }
  split; [exact H | ].
  exact (@set_value_frame gains_update
           (match sample_tree with Group l => l | _ => [] end) "on" H).
Defined.

(** X14: one call with the updates [before ++ after] is two calls, first
    with [before] and then, if that returned, with [after]; when the first
    raises, nothing of [after] is applied. *)
Theorem set_value_app (before after : list (string * value))
  (leafs : list (string * Entry)) :
  set_value (VPairs (before ++ after)) (Group leafs) =
    match set_value (VPairs before) (Group leafs) with
    | (g, Ok _) => set_value (VPairs after) g
    | (g, Raise e) => (g, Raise e)
    end.
Proof.
  cbn [set_value]. rewrite set_items_app.
  destruct (set_items set_value before leafs) as [leafs1 [[] | e]]; reflexivity.
Qed.

(** X15: two updates of different keys commute: when the call with the one
    before the other returns, the call with the other before the one
    returns too, with the same group. *)
Theorem set_value_commute (k1 k2 : string) (v1 v2 : value)
  (leafs : list (string * Entry)) (g : Entry) :
  k1 <> k2 ->
  set_value (VPairs [(k1, v1); (k2, v2)]) (Group leafs) = (g, Ok tt) ->
  set_value (VPairs [(k2, v2); (k1, v1)]) (Group leafs) = (g, Ok tt).
Proof.
  intros N. cbn [set_value set_items].
  destruct (leafs_get k1 leafs) as [leaf1 | ] eqn:H1; [ | discriminate].
  destruct (set_value v1 leaf1) as [leaf1' [[] | e1]] eqn:S1; [ | discriminate].
  rewrite leafs_get_put_other by exact N.
  destruct (leafs_get k2 leafs) as [leaf2 | ] eqn:H2; [ | discriminate].
  destruct (set_value v2 leaf2) as [leaf2' [[] | e2]] eqn:S2; [ | discriminate].
  rewrite leafs_get_put_other by (intros E; apply N; now symmetry).
  rewrite H1, S1.
  intros E. inversion E; subst; clear E.
  f_equal. f_equal. apply leafs_put_put_other. exact N.
Qed.

Lemma set_value_commute_witness :
  "kp"%string <> "on"%string /\
  exists g : Entry,
    set_value (VPairs [("kp"%string, VFloat 2); ("on"%string, VBool false)]) sample_tree
      = (g, Ok tt) /\
    set_value (VPairs [("on"%string, VBool false); ("kp"%string, VFloat 2)]) sample_tree
      = (g, Ok tt).
Proof.
  assert (N : "kp"%string <> "on"%string) by discriminate.
  split; [exact N | ].
  assert (H : exists g : Entry,
             set_value (VPairs [("kp"%string, VFloat 2); ("on"%string, VBool false)])
               sample_tree = (g, Ok tt)).
  { unfold sample_tree, gain_entry.
    cbn [set_value set_items leafs_get leafs_put String.eqb Ascii.eqb Bool.eqb].
    unfold FloatEntry_set_value. eexists. reflexivity. }
  destruct H as [g Hg]. exists g. split; [exact Hg | ].
  exact (@set_value_commute "kp" "on" (VFloat 2) (VBool false)
           (match sample_tree with Group l => l | _ => [] end) g N Hg).
Defined.

(** ** When [get_value] answers *)

Lemma get_items_widgets (leafs : list (string * Entry)) :
  Forall (fun kv =>
            (has_widgets (snd kv) = true -> exists v, get_value (snd kv) = Ok v) /\
            (has_widgets (snd kv) = false -> get_value (snd kv) = Raise AttributeError))
    leafs ->
  (forallb_leafs has_widgets leafs = true ->
   exists items, get_items get_value leafs = Ok items /\ map fst items = map fst leafs) /\
  (forallb_leafs has_widgets leafs = false ->
   get_items get_value leafs = Raise AttributeError).
Proof.
  induction 1 as [ | [k e] rest [Hyes Hno] _ [IHyes IHno]]; cbn.
  - split; [intros _; exists []; split; reflexivity | discriminate].
  - cbn in Hyes, Hno. destruct (has_widgets e).
    + destruct (Hyes eq_refl) as [v Hv]. rewrite Hv. cbn.
      destruct (forallb_leafs has_widgets rest).
      * split; [intros _ | discriminate].
        destruct (IHyes eq_refl) as [items [Hi Hk]]. rewrite Hi. cbn.
        exists ((k, v) :: items). split; [reflexivity | cbn; now rewrite Hk].
      * split; [discriminate | intros _]. now rewrite (IHno eq_refl).
    + cbn. split; [discriminate | intros _]. now rewrite (Hno eq_refl).
Qed.

Lemma get_value_answers (e : Entry) :
  (has_widgets e = true -> exists v : value, get_value e = Ok v) /\
  (has_widgets e = false -> get_value e = Raise AttributeError).
Proof.
  induction e as [ui c | ui c | ui c | ui rs | leafs IH] using Entry_leafs_ind.
  - destruct c; cbn; split; try discriminate; eauto.
  - destruct c; cbn; split; try discriminate; eauto.
  - destruct c; cbn; split; try discriminate; eauto.
  - destruct rs as [rs | ]; cbn; split; try discriminate; eauto.
    intros _. destruct (first_checked rs); eauto.
  - destruct (get_items_widgets IH) as [Hyes Hno]. cbn. split.
    + intros Hw. destruct (Hyes Hw) as [items [Hi _]]. rewrite Hi. cbn. eauto.
    + intros Hw. now rewrite (Hno Hw).
Qed.

(** X16: [get_value] answers exactly when every entry of the tree has its
    widget, and raises [AttributeError] otherwise; what a group answers has
    one pair for every leaf, under the keys of the group in their order. *)
Theorem get_value_widgets (e : Entry) :
  (has_widgets e = true -> exists v : value, get_value e = Ok v) /\
  (has_widgets e = false -> get_value e = Raise AttributeError) /\
  (forall (leafs : list (string * Entry)) (items : list (string * value)),
      e = Group leafs -> get_value e = Ok (VPairs items) ->
      map fst items = map fst leafs).
Proof.
  destruct (get_value_answers e) as [Hyes Hno].
  split; [exact Hyes | split; [exact Hno | ]].
  intros leafs items E Hget. subst e.
  assert (Hall : Forall (fun kv : string * Entry =>
              (has_widgets (snd kv) = true -> exists v, get_value (snd kv) = Ok v) /\
              (has_widgets (snd kv) = false ->
               get_value (snd kv) = Raise AttributeError)) leafs).
  { apply Forall_forall. intros kv _. apply get_value_answers. }
  destruct (get_items_widgets Hall) as [Iyes Ino].
  cbn in Hget.
  destruct (forallb_leafs has_widgets leafs).
  - destruct (Iyes eq_refl) as [items' [Hi Hk]].
    rewrite Hi in Hget. cbn in Hget. inversion Hget; subst. exact Hk.
  - rewrite (Ino eq_refl) in Hget. discriminate Hget.
Qed.

Lemma get_value_widgets_witness :
  has_widgets sample_tree = true /\
  exists v : value, get_value sample_tree = Ok v.
Proof.
  split; [reflexivity | ].
  exact (proj1 (get_value_widgets sample_tree) eq_refl).
Defined.

(** ** Setting a value and reading it back *)

Lemma count_checked_nth (rs : list QRadioButton) :
  forall (i : nat) (r : QRadioButton),
    nth_error rs i = Some r -> radioChecked r = true -> (1 <= count_checked rs)%nat.
Proof.
  induction rs as [ | r0 rest IH]; intros [ | i] r; cbn; try discriminate.
  - intros E C. inversion E; subst. rewrite C. lia.
  - intros E C. pose proof (IH i r E C). lia.
Qed.

(** Of radio buttons of which at most one is checked, a checked one is the
    one that [get_value] finds. *)
Lemma first_checked_only (rs : list QRadioButton) :
  forall (i : nat) (r : QRadioButton),
    nth_error rs i = Some r -> radioChecked r = true ->
    (count_checked rs <= 1)%nat ->
    first_checked rs = Some (text r).
Proof.
  induction rs as [ | r0 rest IH]; intros [ | i] r; cbn; try discriminate.
  - intros E C _. inversion E; subst. now rewrite C.
  - intros E C Hc. destruct (radioChecked r0).
    + pose proof (count_checked_nth rest i E C). lia.
    + apply (IH i r E C). lia.
Qed.

(** X17: on a leaf with its widget, [set_value] with a value of the leaf's
    domain returns, and [get_value] then answers that value.  The domain
    of a float leaf is made of the numbers of at most two decimals inside
    the range of its spin box (the spin box rounds the others), the one of
    an int leaf of the integers inside the range of its spin box, which is
    a range of C [int]s. *)
Theorem set_value_then_get_value (v : value) (e : Entry) :
  in_domain v e ->
  exists e' : Entry, set_value v e = (e', Ok tt) /\ get_value e' = Ok v.
Proof.
  destruct e as [ui [c | ] | ui [c | ] | ui [c | ] | ui [rs | ] | leafs];
    destruct v as [r | z | b | s | items]; cbn [in_domain];
    try (intros Hf; exact (match Hf with end)).
  - intros [Hr _]. cbn. unfold FloatEntry_set_value. cbn.
    eexists. split; [reflexivity | ]. cbn. now rewrite dbound_inside.
  - intros [Hz _]. cbn. unfold IntEntry_set_value. cbn.
    eexists. split; [reflexivity | ]. cbn. now rewrite ibound_inside.
  - intros _. cbn. eexists. split; reflexivity.
  - intros [Hin [Htext Hone]].
    destruct (list_index_in s (ps_value_list ui) Hin) as [i [Hi Hn]].
    assert (Hr : exists r : QRadioButton, nth_error rs i = Some r /\ text r = s).
    { rewrite <- Htext in Hn. rewrite nth_error_map in Hn.
      destruct (nth_error rs i) as [r | ]; [ | discriminate Hn].
      exists r. split; [reflexivity | ]. cbn in Hn. now inversion Hn. }
    destruct Hr as [r [Hnr Ht]].
    cbn [set_value]. unfold ChoiceEntry_set_value. cbn [ps_value_list].
    rewrite Hi, Hnr. eexists. split; [reflexivity | ].
    cbn. unfold toggle_at. rewrite Hnr.
    destruct (radioChecked r) eqn:C.
    + rewrite (first_checked_only rs i Hnr C Hone). now rewrite Ht.
    + rewrite (check_only_first rs i Hnr). now rewrite Ht.
Qed.

Lemma set_value_then_get_value_witness :
  in_domain (VFloat (235 / 100)) gain_entry /\
  exists e' : Entry,
    set_value (VFloat (235 / 100)) gain_entry = (e', Ok tt) /\
    get_value e' = Ok (VFloat (235 / 100)).
Proof.
  assert (H : in_domain (VFloat (235 / 100)) gain_entry).
  { cbn. split; [lra | exists 235%Z; reflexivity]. }
  split; [exact H | ].
  exact (set_value_then_get_value _ _ H).
Defined.

(** X18: [ChoiceEntry.set_value] raises [ValueError] exactly when the string
    is none of the choices, and has by then stored it in [ui.value] all the
    same; the radio buttons are as they were, so that [get_value] still
    answers the choice of the checked button. *)
Theorem ChoiceEntry_set_value_error (s : string) (ui : PSelect)
  (radios : option (list QRadioButton)) :
  (snd (set_value (VStr s) (ChoiceEntry ui radios)) = Raise ValueError <->
   ~ In s (ps_value_list ui)) /\
  (~ In s (ps_value_list ui) ->
   fst (set_value (VStr s) (ChoiceEntry ui radios)) =
     ChoiceEntry {| ps_label := ps_label ui; ps_value_list := ps_value_list ui;
                    ps_value := s |} radios) /\
  (forall t : string,
      ~ In s (ps_value_list ui) ->
      (exists rs, radios = Some rs /\ first_checked rs = Some t) ->
      get_value (fst (set_value (VStr s) (ChoiceEntry ui radios))) = Ok (VStr t)).
Proof.
  assert (Hnone : ~ In s (ps_value_list ui) -> list_index s (ps_value_list ui) = None).
  { intros Hnot. destruct (list_index s (ps_value_list ui)) as [i | ] eqn:Hi;
      [ | reflexivity].
    elim Hnot. clear Hnot. revert i Hi.
    induction (ps_value_list ui) as [ | s' rest IH]; cbn; [discriminate | ].
    intros i. destruct (String.eqb_spec s s') as [E | N].
    - intros _. left. now symmetry.
    - destruct (list_index s rest) as [j | ]; [ | discriminate].
      intros _. right. now apply (IH j). }
  split; [split | split].
  - intros Hraise Hin.
    destruct (list_index_in s (ps_value_list ui) Hin) as [i [Hi _]].
    cbn [set_value] in Hraise. unfold ChoiceEntry_set_value in Hraise.
    cbn [ps_value_list] in Hraise. rewrite Hi in Hraise.
    destruct radios as [rs | ]; [ | discriminate Hraise].
    destruct (nth_error rs i); discriminate Hraise.
  - intros Hnot. cbn [set_value]. unfold ChoiceEntry_set_value.
    cbn [ps_value_list]. now rewrite (Hnone Hnot).
  - intros Hnot. cbn [set_value]. unfold ChoiceEntry_set_value.
    cbn [ps_value_list]. now rewrite (Hnone Hnot).
  - intros t Hnot [rs [Er Hf]]. subst radios.
    cbn [set_value]. unfold ChoiceEntry_set_value.
    cbn [ps_value_list]. rewrite (Hnone Hnot). cbn. now rewrite Hf.
Qed.

Lemma ChoiceEntry_set_value_error_witness :
  ~ In "fly"%string (ps_value_list mode_ui) /\
  snd (set_value (VStr "fly")
         (ChoiceEntry mode_ui
            (Some (make_radios (ps_value mode_ui) (ps_value_list mode_ui) []))))
    = Raise ValueError /\
  get_value
    (fst (set_value (VStr "fly")
            (ChoiceEntry mode_ui
               (Some (make_radios (ps_value mode_ui) (ps_value_list mode_ui) [])))))
    = Ok (VStr "hold").
Proof.
  assert (H : ~ In "fly"%string (ps_value_list mode_ui)).
  { cbn. intros [E | [E | []]]; discriminate E. }
  split; [exact H | ]. split.
  - exact (proj2 (proj1 (ChoiceEntry_set_value_error "fly" mode_ui _)) H).
  - apply (proj2 (proj2 (ChoiceEntry_set_value_error "fly" mode_ui _)) "hold"%string H).
    eexists. split; reflexivity.
Defined.

(** ** [Contents.create_widgets] *)

Lemma IntEntry_control_range (ui : PInt) :
  (pi_min_value ui <= pi_max_value ui)%Z ->
  IntEntry_control ui =
    {| iminimum := pi_min_value ui; imaximum := pi_max_value ui;
       ivalue := ibound (pi_min_value ui) (pi_max_value ui) (pi_value ui) |}.
Proof.
  intros H.
  unfold IntEntry_control, QSpinBox_setValue, QSpinBox_setMaximum,
    QSpinBox_setMinimum, QSpinBox_setRange, QSpinBox_new.
  cbn [iminimum imaximum ivalue].
  repeat match goal with
         | |- context [Z.ltb ?a ?b] =>
             lazymatch a with context [Z.ltb] => fail | _ => idtac end;
             lazymatch b with context [Z.ltb] => fail | _ => idtac end;
             destruct (Z.ltb_spec a b)
         end;
    try lia; try reflexivity.
  replace (pi_max_value ui) with (pi_min_value ui) by lia. reflexivity.
Qed.

(** The widget of a plain entry is created without an error and holds a
    value of its range. *)
Lemma create_widgets_plain (e : Entry) :
  plain_entry e ->
  snd (create_widgets e) = Ok tt /\ valid_state (fst (create_widgets e)).
Proof.
  destruct e as [ui c | ui c | ui c | ui rs | leafs]; cbn [plain_entry];
    try (intros Hf; exact (match Hf with end)); intros H.
  - split; [reflexivity | ]. cbn [create_widgets fst valid_state].
    rewrite FloatEntry_control_range by exact H. cbn [dminimum dmaximum dvalue].
    now apply dbound_range.
  - split; [reflexivity | ]. cbn [create_widgets fst valid_state].
    destruct H as [H _].
    rewrite IntEntry_control_range by exact H. cbn [iminimum imaximum ivalue].
    now apply ibound_range.
  - split; [reflexivity | exact I].
Qed.

Lemma create_widgets_labelless (e : Entry) :
  labelless_entry e -> snd (create_widgets e) = Raise AttributeError.
Proof.
  destruct e as [ui c | ui c | ui c | ui rs | leafs]; cbn [labelless_entry];
    try (intros Hf; exact (match Hf with end)); reflexivity.
Qed.

(** X19: on leaves that are all float, int or bool entries with declared
    ranges that are not empty, the bounds and the value of an int entry
    being C [int]s, under distinct keys, [Contents.create_widgets] returns
    and leaves the tree in a valid state: the same keys, every widget
    created, every spin box inside its range. *)
Theorem Contents_create_widgets_plain (leafs : list (string * Entry)) :
  all_leafs plain_entry leafs ->
  NoDup (map fst leafs) ->
  exists leafs' : list (string * Entry),
    Contents_create_widgets leafs = (leafs', Ok tt) /\
    map fst leafs' = map fst leafs /\
    valid_state (Group leafs').
Proof.
  intros Hall Hnd.
  assert (H : exists leafs' : list (string * Entry),
             Contents_create_widgets leafs = (leafs', Ok tt) /\
             map fst leafs' = map fst leafs /\
             all_leafs valid_state leafs').
  { clear Hnd. induction leafs as [ | [k e] rest IH]; cbn.
    - exists []. repeat split.
    - destruct Hall as [He Hrest].
      destruct (create_widgets_plain e He) as [Hok Hval].
      destruct (create_widgets e) as [e' r]. cbn in Hok, Hval. subst r.
      destruct (IH Hrest) as [rest' [Hc [Hk Hv]]]. rewrite Hc.
      exists ((k, e') :: rest'). split; [reflexivity | ].
      split; [cbn; now rewrite Hk | cbn; split; assumption]. }
  destruct H as [leafs' [Hc [Hk Hv]]].
  exists leafs'. split; [exact Hc | split; [exact Hk | ]].
  cbn. split; [now rewrite Hk | exact Hv].
Qed.

Lemma Contents_create_widgets_plain_witness :
  (all_leafs plain_entry [("kp"%string, FloatEntry gain_ui None);
                          ("laps"%string, IntEntry laps_ui None)] /\
   NoDup (map fst [("kp"%string, FloatEntry gain_ui None);
                   ("laps"%string, IntEntry laps_ui None)])) /\
  exists leafs' : list (string * Entry),
    Contents_create_widgets [("kp"%string, FloatEntry gain_ui None);
                             ("laps"%string, IntEntry laps_ui None)]
      = (leafs', Ok tt) /\
    valid_state (Group leafs').
Proof.
  assert (Ha : all_leafs plain_entry [("kp"%string, FloatEntry gain_ui None);
                                      ("laps"%string, IntEntry laps_ui None)]).
  { cbn. unfold c_int. split; [lra | split; [lia | exact I]]. }
  assert (Hn : NoDup (map fst [("kp"%string, FloatEntry gain_ui None);
                               ("laps"%string, IntEntry laps_ui None)])).
  { cbn. apply NoDup_cons; [intros [E | []]; discriminate E | ].
    apply NoDup_cons; [intros [] | apply NoDup_nil]. }
  split; [split; assumption | ].
  destruct (@Contents_create_widgets_plain _ Ha Hn) as [leafs' [Hc [_ Hv]]].
  exists leafs'. split; assumption.
Defined.

(** X20: a choice or a nested group among the leaves makes
    [Contents.create_widgets] raise [AttributeError]: the plain leaves
    before the first such leaf (float, int and bool entries with declared
    ranges that are not empty, the bounds and the value of an int entry
    being C [int]s) have their widgets, the leaves after it are as they
    were. *)
Theorem Contents_create_widgets_labelless (before after : list (string * Entry))
  (k : string) (e : Entry) :
  all_leafs plain_entry before ->
  labelless_entry e ->
  exists before' : list (string * Entry),
    Contents_create_widgets before = (before', Ok tt) /\
    Contents_create_widgets (before ++ (k, e) :: after) =
      (before' ++ (k, fst (create_widgets e)) :: after, Raise AttributeError).
Proof.
  intros Hall He.
  induction before as [ | [k0 e0] rest IH]; cbn.
  - exists []. split; [reflexivity | ].
    pose proof (create_widgets_labelless e He) as Hr.
    destruct (create_widgets e) as [e' r]. cbn in *. now subst r.
  - destruct Hall as [H0 Hrest].
    destruct (create_widgets_plain e0 H0) as [Hok _].
    destruct (create_widgets e0) as [e0' r]. cbn in Hok. subst r.
    destruct (IH Hrest) as [rest' [Hc Hfull]]. rewrite Hc, Hfull.
    exists ((k0, e0') :: rest'). split; reflexivity.
Qed.

Lemma Contents_create_widgets_labelless_witness :
  (all_leafs plain_entry [("kp"%string, FloatEntry gain_ui None);
                          ("laps"%string, IntEntry laps_ui None)] /\
   labelless_entry (Group [])) /\
  snd (Contents_create_widgets
         ([("kp"%string, FloatEntry gain_ui None);
           ("laps"%string, IntEntry laps_ui None)]
            ++ ("goal"%string, Group []) :: [("x"%string, FloatEntry goal_x_ui None)]))
    = Raise AttributeError.
Proof.
  assert (Ha : all_leafs plain_entry [("kp"%string, FloatEntry gain_ui None);
                                      ("laps"%string, IntEntry laps_ui None)]).
  { cbn. unfold c_int. split; [lra | split; [lia | exact I]]. }
  split; [split; [exact Ha | exact I] | ].
  destruct (@Contents_create_widgets_labelless
              [("kp"%string, FloatEntry gain_ui None);
               ("laps"%string, IntEntry laps_ui None)]
              [("x"%string, FloatEntry goal_x_ui None)] "goal"%string (Group []) Ha I)
    as [before' [_ Hfull]].
  rewrite Hfull. reflexivity.
Defined.

(** * Properties of the wx renderer *)

Lemma land_255 (a : Z) : Z.land a 255 = (a mod 256)%Z.
Proof. change 255%Z with (Z.ones 8). now rewrite Z.land_ones by lia. Qed.

Lemma wxcolor_some (c : Z) :
  wxcolor (Some c) =
    Some {| red := (c / 65536) mod 256; green := (c / 256) mod 256;
            blue := c mod 256; alpha := 255 |}%Z.
Proof.
  unfold wxcolor. rewrite !land_255, !Z.shiftr_div_pow2 by lia. reflexivity.
Qed.

(** X21: the colour that [__wxcolor] makes of an integer has the three low
    bytes of the integer as its components: each lies in 0..255, together
    they are the integer modulo [2^24] (the integer itself when it is a
    [0xRRGGBB] value), and alpha is 255.  This holds for negative integers
    and for integers beyond 24 bits as well. *)
Theorem wxcolor_bytes (c : Z) :
  exists r g b : Z,
    wxcolor (Some c) = Some {| red := r; green := g; blue := b; alpha := 255 |} /\
    (0 <= r <= 255)%Z /\ (0 <= g <= 255)%Z /\ (0 <= b <= 255)%Z /\
    (r * 65536 + g * 256 + b = c mod 16777216)%Z.
Proof.
  exists ((c / 65536) mod 256)%Z, ((c / 256) mod 256)%Z, (c mod 256)%Z.
  split; [apply wxcolor_some | ].
  pose proof (Z.mod_pos_bound (c / 65536) 256 ltac:(lia)).
  pose proof (Z.mod_pos_bound (c / 256) 256 ltac:(lia)).
  pose proof (Z.mod_pos_bound c 256 ltac:(lia)).
  repeat split; try lia.
  Z.div_mod_to_equations. lia.
Qed.

(** X22: unpacking undoes packing: the colour of the integer
    [r*65536 + g*256 + b], with every component in 0..255, has the
    components [r], [g] and [b]; so different [0xRRGGBB] values give
    different colours. *)
Theorem wxcolor_pack (r g b : Z) :
  (0 <= r <= 255)%Z -> (0 <= g <= 255)%Z -> (0 <= b <= 255)%Z ->
  wxcolor (Some (r * 65536 + g * 256 + b)%Z) =
    Some {| red := r; green := g; blue := b; alpha := 255 |}.
Proof.
  intros Hr Hg Hb. rewrite wxcolor_some.
  f_equal. f_equal; Z.div_mod_to_equations; lia.
Qed.

Lemma wxcolor_pack_witness :
  ((0 <= 18 <= 255)%Z /\ (0 <= 52 <= 255)%Z /\ (0 <= 86 <= 255)%Z) /\
  wxcolor (Some 1193046%Z) = Some {| red := 18; green := 52; blue := 86; alpha := 255 |}.
Proof.
  split; [lia | ].
  exact (@wxcolor_pack 18 52 86 ltac:(lia) ltac:(lia) ltac:(lia)).
Defined.

(** ** The pens *)

Lemma color_eqb_spec (a b : option Z) : reflect (a = b) (color_eqb a b).
Proof.
  destruct a as [c | ], b as [d | ]; cbn; try (constructor; congruence).
  destruct (Z.eqb_spec c d); constructor; congruence.
Qed.

Lemma cache_get_none (A : Type) (color : option Z) (cache : list (option Z * A)) :
  cache_get color cache = None <-> ~ In color (map fst cache).
Proof.
  induction cache as [ | [c a] rest IH]; cbn.
  - split; [intros _ [] | reflexivity].
  - destruct (color_eqb_spec color c) as [E | N].
    + split; [discriminate | intros H; elim H; left; now symmetry].
    + rewrite IH. split.
      * intros H [E | I]; [now elim N | now elim H].
      * intros H I. apply H. now right.
Qed.

Lemma pens_created_app (cs ds : list GcCall) :
  pens_created (cs ++ ds) = (pens_created cs + pens_created ds)%nat.
Proof.
  induction cs as [ | c rest IH]; cbn; [reflexivity | ].
  destruct c; cbn; rewrite IH; reflexivity.
Qed.

(** What a call other than [setPen] does to the pens: nothing. *)
Lemma render_pens (op : RenderOp) (self : wxGCRenderer) :
  (forall color, op <> OpSetPen color) ->
  _pens (render op self) = _pens self /\
  pens_created (calls (render op self)) = pens_created (calls self).
Proof.
  intros Hop. destruct op; cbn;
    try (split; [reflexivity | rewrite ?pens_created_app; cbn; lia]).
  - now elim (Hop color).
  - unfold setBrush. destruct (cache_get color (_brushes self)); cbn;
      split; try reflexivity; rewrite ?pens_created_app; cbn; lia.
  - unfold drawPolygon. destruct (map (firstn 2) points); cbn;
      split; try reflexivity; rewrite ?pens_created_app; cbn; lia.
  - unfold drawText. destruct (cache_get bgcolor (_brushes self)); cbn;
      split; try reflexivity; rewrite ?pens_created_app; cbn; lia.
Qed.


Lemma render_all_pens (ops : list RenderOp) :
  forall (self : wxGCRenderer) (seen : list (option Z)),
    NoDup (map fst (_pens self)) ->
    (forall c, In c (map fst (_pens self)) <-> In c seen) ->
    pens_created (calls self) = List.length (_pens self) ->
    NoDup (map fst (_pens (render_all ops self))) /\
    (forall c, In c (map fst (_pens (render_all ops self)))
               <-> In c (seen ++ pen_colors ops)) /\
    pens_created (calls (render_all ops self))
      = List.length (_pens (render_all ops self)).
Proof.
  induction ops as [ | op rest IH]; intros self seen Hnd Hseen Hcount.
  - cbn. rewrite app_nil_r. repeat split; try assumption; apply Hseen.
  - change (render_all (op :: rest) self) with (render_all rest (render op self)).
    destruct op; cbn [pen_colors];
      try (match goal with
           | |- context [render ?o self] =>
               destruct (@render_pens o self ltac:(discriminate)) as [Hp Hc]
           end;
           apply IH; rewrite ?Hp, ?Hc; assumption).
    (* setPen *)
    replace (seen ++ color :: pen_colors rest)
      with ((seen ++ [color]) ++ pen_colors rest) by now rewrite <- app_assoc.
    apply IH; cbn [render]; unfold setPen;
      destruct (cache_get color (_pens self)) as [pen | ] eqn:Hget; cbn.
    + exact Hnd.
    + rewrite map_app. cbn. apply cache_get_none in Hget.
      apply NoDup_app; [exact Hnd | repeat constructor; intros [] | ].
      intros c Hc [E | []]. subst. contradiction.
    + intros c. rewrite in_app_iff, <- Hseen. cbn.
      assert (In color (map fst (_pens self))).
      { destruct (in_dec color_eq_dec color (map fst (_pens self))) as [I | N];
          [exact I | ]. apply cache_get_none in N. congruence. }
      intuition (subst; auto).
    + intros c. rewrite map_app, !in_app_iff, <- Hseen. cbn. tauto.
    + rewrite pens_created_app. cbn. lia.
    + rewrite !pens_created_app, length_app. cbn. lia.
Qed.

(** X23: the renderer asks the graphics context for one pen per colour: after
    [__init__] and any calls of its methods, the number of [CreatePen] calls
    is the number of distinct colours given to [setPen], with [None], the
    colour of [__init__], among them; a colour set again reuses the pen of
    [_pens]. *)
Theorem pens_one_per_color (dc_size : R * R) (ops : list RenderOp) :
  pens_created (calls (render_all ops (wxGCRenderer_init dc_size)))
    = List.length (nodup color_eq_dec (None :: pen_colors ops)).
Proof.
  destruct (@render_all_pens ops (wxGCRenderer_init dc_size) [None])
    as [Hnd [Hin Hcount]].
  - cbn. repeat constructor. intros [].
  - intros c. cbn. tauto.
  - reflexivity.
  - rewrite Hcount, <- (length_map fst).
    apply Nat.le_antisymm; apply NoDup_incl_length.
    + exact Hnd.
    + intros c Hc. apply nodup_In. now apply Hin.
    + apply NoDup_nodup.
    + intros c Hc. apply nodup_In in Hc. now apply Hin.
Qed.

(** ** Drawing *)

(** X24: [drawPolygon] with no point raises [IndexError] and draws nothing;
    with points it makes one [DrawLines] call with one point more than it
    was given: the points cut to their first two coordinates, in their
    order, and the first of them again at the end. *)
Theorem drawPolygon_closed (points : list (list R)) (self : wxGCRenderer) :
  (points = [] -> drawPolygon points self = (self, Raise IndexError)) /\
  (points <> [] ->
   exists first : list R,
     hd_error (map (firstn 2) points) = Some first /\
     drawPolygon points self =
       (call (DrawLines (map (firstn 2) points ++ [first])) self, Ok tt) /\
     List.length (map (firstn 2) points ++ [first]) = S (List.length points) /\
     Forall (fun p => (List.length p <= 2)%nat) (map (firstn 2) points ++ [first])).
Proof.
  split.
  - intros E. subst. reflexivity.
  - intros N. destruct points as [ | p rest]; [now elim N | ].
    exists (firstn 2 p). split; [reflexivity | ]. split; [reflexivity | ].
    split.
    + rewrite length_app, length_map. cbn. lia.
    + apply Forall_app. split.
      * apply Forall_forall. intros q Hq. apply in_map_iff in Hq.
        destruct Hq as [q0 [E _]]. subst. apply firstn_le_length.
      * apply Forall_cons; [apply firstn_le_length | apply Forall_nil].
Qed.

Lemma drawPolygon_closed_witness :
  [[0; 0; 7]; [1; 0; 7]; [0; 1; 7]] <> [] /\
  drawPolygon [[0; 0; 7]; [1; 0; 7]; [0; 1; 7]] (wxGCRenderer_init (640, 480)) =
    (call (DrawLines [[0; 0]; [1; 0]; [0; 1]; [0; 0]]) (wxGCRenderer_init (640, 480)),
     Ok tt).
Proof.
  assert (N : [[0; 0; 7]; [1; 0; 7]; [0; 1; 7]] <> ([] : list (list R)))
    by discriminate.
  split; [exact N | ].
  destruct (proj2 (drawPolygon_closed [[0; 0; 7]; [1; 0; 7]; [0; 1; 7]]
                     (wxGCRenderer_init (640, 480))) N) as [first [Hf [Hd _]]].
  cbn in Hf. inversion Hf; subst. exact Hd.
Defined.

(** ** The transformation *)

Lemma gc_run_app (cs ds : list GcCall) :
  forall g : GcState,
    gc_run (cs ++ ds) g =
      match gc_run cs g with
      | Some g' => gc_run ds g'
      | None => None
      end.
Proof.
  induction cs as [ | c rest IH]; intros g; cbn; [reflexivity | ].
  destruct (gc_call c g); [apply IH | reflexivity].
Qed.

(** Every method keeps one saved transformation, the one of [__init__]. *)
Lemma render_saved (dc_size : R * R) (op : RenderOp) (self : wxGCRenderer)
  (g : GcState) :
  gc_run (calls self) gc_new = Some g ->
  saved g = [base_transform dc_size] ->
  exists g' : GcState,
    gc_run (calls (render op self)) gc_new = Some g' /\
    saved g' = [base_transform dc_size].
Proof.
  intros Hrun Hsaved.
  destruct op; cbn [render];
    unfold clearScreen, resetPose, addPose, setPen, setBrush, drawPolygon,
      drawEllipse, drawRectangle, drawText, drawLine, call;
    repeat match goal with
           | |- context [cache_get ?c ?l] => destruct (cache_get c l)
           | |- context [map (firstn 2) ?l] => destruct (map (firstn 2) l)
           end;
    cbn [calls fst];
    rewrite <- ?app_assoc, ?gc_run_app, ?Hrun; cbn; rewrite ?Hsaved;
    eexists; (split; [reflexivity | ]); cbn; try assumption; reflexivity.
Qed.

(** X25: after [__init__] and any calls of the methods, the graphics context
    holds exactly one saved state, the transformation of [__init__] (the
    flip of the y axis and the shift by the height), no [PopState] has met
    an empty stack, and [resetPose] sets the transformation back to that
    one, whatever [addPose] has added. *)
Theorem resetPose_restores (dc_size : R * R) (ops : list RenderOp) :
  (exists t : list GcCall,
      gc_run (calls (render_all ops (wxGCRenderer_init dc_size))) gc_new =
        Some {| transform := t; saved := [base_transform dc_size] |}) /\
  gc_run (calls (resetPose (render_all ops (wxGCRenderer_init dc_size)))) gc_new =
    Some {| transform := base_transform dc_size;
            saved := [base_transform dc_size] |}.
Proof.
  assert (H : forall self g,
             gc_run (calls self) gc_new = Some g ->
             saved g = [base_transform dc_size] ->
             exists g', gc_run (calls (render_all ops self)) gc_new = Some g' /\
                        saved g' = [base_transform dc_size]).
  { induction ops as [ | op rest IH]; intros self g Hrun Hsaved.
    - exists g. split; assumption.
    - change (render_all (op :: rest) self) with (render_all rest (render op self)).
      destruct (@render_saved dc_size op self g Hrun Hsaved) as [g1 [Hrun1 Hsaved1]].
      exact (IH _ _ Hrun1 Hsaved1). }
  destruct (H (wxGCRenderer_init dc_size)
              {| transform := base_transform dc_size;
                 saved := [base_transform dc_size] |} eq_refl eq_refl)
    as [g [Hrun Hsaved]].
  split.
  - exists (transform g). rewrite Hrun. destruct g as [t s]. cbn in *. now subst s.
  - unfold resetPose, call. cbn [calls].
    rewrite <- app_assoc, gc_run_app, Hrun. cbn. rewrite Hsaved. reflexivity.
Qed.

(** * Properties of [get_struct] *)

Lemma dict_set_new (A : Type) (k : string) (a : A) (d : list (string * A)) :
  ~ In k (map fst d) -> dict_set k a d = d ++ [(k, a)].
Proof.
  induction d as [ | [k' a'] rest IH]; cbn; intros H; [reflexivity | ].
  destruct (String.eqb_spec k k') as [E | N].
  - elim H. left. now symmetry.
  - f_equal. apply IH. intros I. apply H. now right.
Qed.

Lemma struct_items_get_items (leafs : list (string * Entry)) :
  Forall (fun kv => get_struct (snd kv) = (v <- get_value (snd kv) ;; Ok (to_struct v)))
    leafs ->
  forall attrs : list (string * StructValue),
    NoDup (map fst attrs ++ map fst leafs) ->
    struct_items get_struct leafs attrs =
      (items <- get_items get_value leafs ;; Ok (attrs ++ map_leafs to_struct items)).
Proof.
  induction 1 as [ | [k e] rest He _ IH]; intros attrs Hnd; cbn.
  - now rewrite app_nil_r.
  - cbn in He. rewrite He.
    destruct (get_value e) as [v | err]; cbn; [ | reflexivity].
    assert (Hk : ~ In k (map fst attrs)).
    { cbn in Hnd. apply NoDup_remove_2 in Hnd. intros I. apply Hnd.
      apply in_or_app. now left. }
    rewrite dict_set_new by exact Hk.
    rewrite IH.
    + destruct (get_items get_value rest) as [items | err]; cbn; [ | reflexivity].
      now rewrite <- app_assoc.
    + rewrite map_app. cbn. rewrite <- app_assoc. exact Hnd.
Qed.

Lemma all_leafs_Forall (P Q : Entry -> Prop) (leafs : list (string * Entry)) :
  Forall (fun kv => P (snd kv) -> Q (snd kv)) leafs ->
  all_leafs P leafs -> Forall (fun kv => Q (snd kv)) leafs.
Proof.
  induction 1 as [ | [k e] rest Hhead _ IH]; cbn; [constructor | ].
  intros [Hp Hrest]. constructor; [now apply Hhead | now apply IH].
Qed.

(** X26: [get_struct] and [get_value] tell the same: on a tree with distinct
    keys [get_struct] raises exactly what [get_value] raises, and otherwise
    returns the values of [get_value], the list of pairs of every group
    turned into a [Struct] with one attribute per key, in the same
    order. *)
Theorem get_struct_get_value (e : Entry) :
  keys_distinct e ->
  get_struct e = (v <- get_value e ;; Ok (to_struct v)).
Proof.
  induction e as [ui c | ui c | ui c | ui rs | leafs IH] using Entry_leafs_ind.
  - intros _. cbn. destruct c; reflexivity.
  - intros _. cbn. destruct c; reflexivity.
  - intros _. cbn. destruct c; reflexivity.
  - intros _. cbn. destruct rs as [rs | ]; [ | reflexivity].
    destruct (first_checked rs); reflexivity.
  - cbn [keys_distinct]. intros [Hnd Hall].
    cbn [get_struct get_value].
    pose proof (@all_leafs_Forall keys_distinct
                  (fun e => get_struct e = (v <- get_value e ;; Ok (to_struct v)))
                  leafs IH Hall) as Hleafs.
    rewrite (struct_items_get_items Hleafs []) by exact Hnd.
    destruct (get_items get_value leafs) as [items | err]; reflexivity.
Qed.

Lemma sample_tree_keys_distinct : keys_distinct sample_tree.
Proof.
  cbn. repeat split; repeat constructor; cbn; intuition discriminate.
Defined.

Lemma get_struct_get_value_witness :
  keys_distinct sample_tree /\
  get_struct sample_tree =
    Ok (Struct [("kp"%string, SLeaf (VFloat 1));
                ("on"%string, SLeaf (VBool true));
                ("laps"%string, SLeaf (VInt 3));
                ("mode"%string, SLeaf (VStr "hold"));
                ("goal"%string, Struct [("x"%string, SLeaf (VFloat (-5)))])]).
Proof.
  split; [exact sample_tree_keys_distinct | ].
  exact (get_struct_get_value sample_tree sample_tree_keys_distinct).
Defined.

(** * Properties of the dock *)

Lemma ParamDock_event_content (top : Z) (event : QEvent) (self : ParamDock) :
  content (fst (ParamDock_event top event self)) = content self.
Proof.
  destruct self as [c cl n]. destruct event; cbn; try reflexivity.
  - destruct c; try reflexivity; destruct (ypos <? top)%Z; reflexivity.
  - destruct cl; reflexivity.
Qed.

Lemma ParamDock_events_snoc (events : list (Z * QEvent)) (te : Z * QEvent)
  (self : ParamDock) :
  ParamDock_events (events ++ [te]) self =
    fst (ParamDock_event (fst te) (snd te) (ParamDock_events events self)).
Proof. unfold ParamDock_events. now rewrite fold_left_app. Qed.

Lemma ParamDock_events_content (events : list (Z * QEvent)) (self : ParamDock) :
  content (ParamDock_events events self) = content self.
Proof.
  induction events as [ | te rest IH] using rev_ind; [reflexivity | ].
  now rewrite ParamDock_events_snoc, ParamDock_event_content.
Qed.

(** The flag [__click] after a list of events: it is set when a press in
    the title bar is followed by quiet events only, or when it was set
    and all the events are quiet. *)
Lemma ParamDock_events_click (events : list (Z * QEvent)) (self : ParamDock) :
  content self <> NoContent ->
  (click (ParamDock_events events self) = true <->
   (exists before top ypos after,
       events = before ++ (top, MouseButtonPress ypos) :: after /\
       (ypos < top)%Z /\ Forall quiet after) \/
   (click self = true /\ Forall quiet events)).
Proof.
  intros Hc. induction events as [ | [top ev] rest IH] using rev_ind.
  - cbn. split.
    + intros H. right. split; [exact H | constructor].
    + intros [[before [top [ypos [after [E _]]]]] | [H _]]; [ | exact H].
      destruct before; discriminate E.
  - rewrite ParamDock_events_snoc. cbn [fst snd].
    assert (Hc' : content (ParamDock_events rest self) <> NoContent)
      by now rewrite ParamDock_events_content.
    assert (Hsplit : forall before t y after,
               rest ++ [(top, ev)] = before ++ (t, MouseButtonPress y) :: after ->
               (after = [] /\ before = rest /\ (top, ev) = (t, MouseButtonPress y)) \/
               (exists after', after = after' ++ [(top, ev)] /\
                               rest = before ++ (t, MouseButtonPress y) :: after')).
    { intros before t y after E.
      destruct after as [ | a after0] using rev_ind.
      - left. apply app_inj_tail in E. destruct E as [E1 E2]. auto.
      - right. clear IHafter0. exists after0.
        rewrite app_comm_cons, app_assoc in E.
        apply app_inj_tail in E. destruct E as [E1 E2]. subst. auto. }
    destruct ev as [ypos | | | ]; cbn.
    + (* a press *)
      destruct (content (ParamDock_events rest self)) eqn:Econt;
        [now elim Hc' | | ];
        (destruct (Z.ltb_spec ypos top) as [Hlt | Hge]; cbn;
         [ split; [intros _ | reflexivity];
           left; exists rest, top, ypos, []; repeat split; [exact Hlt | constructor]
         | rewrite IH; split;
           [ intros [[before [t [y [after [E [Hy Hq]]]]]] | [Hcl Hq]];
             [ left; exists before, t, y, (after ++ [(top, MouseButtonPress ypos)]);
               subst rest; rewrite <- app_assoc; repeat split; try assumption;
               apply Forall_app; split; [exact Hq | ];
               constructor; [split; discriminate | constructor]
             | right; split; [exact Hcl | ];
               apply Forall_app; split; [exact Hq | ];
               constructor; [split; discriminate | constructor] ]
           | intros [[before [t [y [after [E [Hy Hq]]]]]] | [Hcl Hq]];
             [ destruct (Hsplit _ _ _ _ E) as [[Ea [Eb Ee]] | [after' [Ea Er]]];
               [ inversion Ee; subst; lia
               | left; exists before, t, y, after'; subst after;
                 apply Forall_app in Hq; destruct Hq as [Hq _]; auto ]
             | right; apply Forall_app in Hq; destruct Hq as [Hq _]; auto ] ] ]).
    + (* a move *)
      split; [discriminate | ].
      intros [[before [t [y [after [E [Hy Hq]]]]]] | [Hcl Hq]].
      * destruct (Hsplit _ _ _ _ E) as [[Ea [Eb Ee]] | [after' [Ea Er]]];
          [discriminate Ee | ].
        subst after. apply Forall_app in Hq. destruct Hq as [_ Hq].
        inversion Hq as [ | ? ? [Hm _] _]; subst. now elim Hm.
      * apply Forall_app in Hq. destruct Hq as [_ Hq].
        inversion Hq as [ | ? ? [Hm _] _]; subst. now elim Hm.
    + (* a release *)
      assert (Hfalse : click (fst (if click (ParamDock_events rest self)
                                   then ({| content := content (ParamDock_events rest self);
                                            click := false;
                                            title_clicks :=
                                              S (title_clicks (ParamDock_events rest self)) |},
                                         Ok tt)
                                   else (ParamDock_events rest self, Ok tt))) = false).
      { destruct (click (ParamDock_events rest self)) eqn:Ecl; cbn; [reflexivity | exact Ecl]. }
      rewrite Hfalse. split; [discriminate | ].
      intros [[before [t [y [after [E [Hy Hq]]]]]] | [Hcl Hq]].
      * destruct (Hsplit _ _ _ _ E) as [[Ea [Eb Ee]] | [after' [Ea Er]]];
          [discriminate Ee | ].
        subst after. apply Forall_app in Hq. destruct Hq as [_ Hq].
        inversion Hq as [ | ? ? [_ Hm] _]; subst. now elim Hm.
      * apply Forall_app in Hq. destruct Hq as [_ Hq].
        inversion Hq as [ | ? ? [_ Hm] _]; subst. now elim Hm.
    + (* another event *)
      rewrite IH. split.
      * intros [[before [t [y [after [E [Hy Hq]]]]]] | [Hcl Hq]].
        -- left. exists before, t, y, (after ++ [(top, OtherEvent)]).
           subst rest. rewrite <- app_assoc. repeat split; try assumption.
           apply Forall_app. split; [exact Hq | ].
           constructor; [split; discriminate | constructor].
        -- right. split; [exact Hcl | ].
           apply Forall_app. split; [exact Hq | ].
           constructor; [split; discriminate | constructor].
      * intros [[before [t [y [after [E [Hy Hq]]]]]] | [Hcl Hq]].
        -- destruct (Hsplit _ _ _ _ E) as [[Ea [Eb Ee]] | [after' [Ea Er]]];
             [discriminate Ee | ].
           left. exists before, t, y, after'. subst after.
           apply Forall_app in Hq. destruct Hq as [Hq _]. auto.
        -- right. apply Forall_app in Hq. destruct Hq as [Hq _]. auto.
Qed.

(** X27: a title click is a press in the title bar followed by a release
    with no mouse move and no other release in between: after any events, a
    release emits [title_click], once, exactly when the events hold a press
    above the top of the widget that only presses and other events follow
    (or when [__click] was set before them and they are all of that kind);
    the release leaves [__click] cleared. *)
Theorem title_click_emitted (events : list (Z * QEvent)) (top : Z) (self : ParamDock) :
  content self <> NoContent ->
  let before := ParamDock_events events self in
  let after := fst (ParamDock_event top MouseButtonRelease before) in
  (title_clicks after = S (title_clicks before) <->
   (exists front t ypos back,
       events = front ++ (t, MouseButtonPress ypos) :: back /\
       (ypos < t)%Z /\ Forall quiet back) \/
   (click self = true /\ Forall quiet events)) /\
  (title_clicks after = S (title_clicks before) \/
   title_clicks after = title_clicks before) /\
  click after = false.
Proof.
  intros Hc before after.
  pose proof (ParamDock_events_click events self Hc) as Hclick.
  fold before in Hclick. unfold after. cbn.
  destruct (click before) eqn:Ecl; cbn.
  - split; [ | split; [now left | reflexivity]].
    split; [intros _; now apply Hclick | reflexivity].
  - split; [ | split; [now right | exact Ecl]].
    split; [intros E; lia | ].
    intros H. apply Hclick in H. discriminate H.
Qed.

Lemma title_click_emitted_witness :
  content {| content := TheWidget; click := false; title_clicks := 0 |} <> NoContent /\
  title_clicks
    (fst (ParamDock_event 20 MouseButtonRelease
            (ParamDock_events [(20%Z, MouseButtonPress 5); (20%Z, OtherEvent)]
               {| content := TheWidget; click := false; title_clicks := 0 |})))
    = 1%nat.
Proof.
  assert (H : content {| content := TheWidget; click := false; title_clicks := 0 |}
              <> NoContent) by discriminate.
  split; [exact H | ].
  apply (proj1 (title_click_emitted
                  [(20%Z, MouseButtonPress 5); (20%Z, OtherEvent)] 20 _ H)).
  left. exists [], 20%Z, 5%Z, [(20%Z, OtherEvent)].
  split; [reflexivity | split; [lia | ]].
  constructor; [split; discriminate | constructor].
Defined.

(** * Properties of the dock manager *)

Lemma dock_in_spec (dock : Dock) (dlist : list Dock) :
  dock_in dock dlist = true <-> In dock dlist.
Proof.
  unfold dock_in. rewrite existsb_exists. split.
  - intros [d [Hin E]]. apply Nat.eqb_eq in E. now subst.
  - intros Hin. exists dock. split; [exact Hin | apply Nat.eqb_refl].
Qed.

(** X28: [remove_dock], the slot of the [destroyed] signal, raises
    [NameError] exactly when the dock is in [docks_left] or in
    [docks_right], and then changes nothing; for a dock in neither list it
    returns, having taken out of [docks] the first name of that dock, and
    nothing else. *)
Theorem remove_dock_docked (dock : Dock) (self : DockManager) :
  (snd (remove_dock dock self) = Raised (NameError "old_dock") <->
   In dock (docks_left self) \/ In dock (docks_right self)) /\
  (In dock (docks_left self) \/ In dock (docks_right self) ->
   fst (remove_dock dock self) = self) /\
  (~ In dock (docks_left self) -> ~ In dock (docks_right self) ->
   remove_dock dock self =
     ({| objects := objects self; docks := del_dock dock (docks self);
         docks_left := docks_left self; docks_right := docks_right self;
         active_left := active_left self; active_right := active_right self |},
      Done tt)).
Proof.
  unfold remove_dock.
  destruct (dock_in dock (docks_left self)) eqn:Hl;
    [ | destruct (dock_in dock (docks_right self)) eqn:Hr].
  - apply dock_in_spec in Hl. repeat split; try reflexivity; tauto.
  - apply dock_in_spec in Hr. repeat split; try reflexivity; tauto.
  - assert (Nl : ~ In dock (docks_left self))
      by (intros I; apply dock_in_spec in I; congruence).
    assert (Nr : ~ In dock (docks_right self))
      by (intros I; apply dock_in_spec in I; congruence).
    split; [split; [discriminate | tauto] | ]. split; [tauto | reflexivity].
Qed.

Lemma remove_dock_docked_witness :
  (In 0%nat (docks_left (fst (add_dock "pid" [] "left" DockManager_init))) \/
   In 0%nat (docks_right (fst (add_dock "pid" [] "left" DockManager_init)))) /\
  snd (remove_dock 0%nat (fst (add_dock "pid" [] "left" DockManager_init)))
    = Raised (NameError "old_dock").
Proof.
  assert (H : In 0%nat (docks_left (fst (add_dock "pid" [] "left" DockManager_init))) \/
              In 0%nat (docks_right (fst (add_dock "pid" [] "left" DockManager_init))))
    by (left; left; reflexivity).
  split; [exact H | ].
  exact (proj2 (proj1 (remove_dock_docked 0%nat
                         (fst (add_dock "pid" [] "left" DockManager_init)))) H).
Defined.

Lemma on_dock_same (dock : Dock) (o : ParamDock) (objs : list ParamDock) :
  nth_error objs dock = Some o -> on_dock (fun _ => o) dock objs = objs.
Proof.
  revert dock. induction objs as [ | o0 rest IH]; intros [ | d]; cbn; try discriminate.
  - intros E. now inversion E.
  - intros E. now rewrite IH.
Qed.

Lemma ParamWidget_init_elements (parameters : list UiElement) :
  parameters <> [] -> ParamWidget_init parameters = Raised (NameError "_class_map").
Proof. destruct parameters; [intros N; now elim N | reflexivity]. Qed.

(** X29: [add_dock] cannot show parameters: with a descriptor that has an
    element, it raises the [NameError] of [Group.__init__] and leaves the
    manager as it was, be the name new or not.  With a descriptor without
    elements, a new name and a side that is neither ['left'] nor ['right'],
    it raises [UnboundLocalError] after the new dock has been stored in
    [docks]: the dock is known by its name but is in no list, and the lists
    and the active docks are as they were. *)
Theorem add_dock_raises (name : string) (parameters : list UiElement) (side : string)
  (self : DockManager) :
  (parameters <> [] ->
   (forall old, leafs_get name (docks self) = Some old ->
                (old < List.length (objects self))%nat) ->
   add_dock name parameters side self = (self, Raised (NameError "_class_map"))) /\
  (parameters = [] -> leafs_get name (docks self) = None ->
   side <> "left"%string -> side <> "right"%string ->
   add_dock name parameters side self =
     ({| objects := objects self
                      ++ [{| content := TheWidget; click := false; title_clicks := 0 |}];
         docks := docks self ++ [(name, List.length (objects self))];
         docks_left := docks_left self; docks_right := docks_right self;
         active_left := active_left self; active_right := active_right self |},
      Raised (UnboundLocalError "dlist"))).
Proof.
  split.
  - intros Hp Hexist. unfold add_dock.
    destruct (leafs_get name (docks self)) as [old | ] eqn:Hname.
    + destruct (nth_error (objects self) old) as [o | ] eqn:Hobj.
      * unfold ParamDock_reset. rewrite (ParamWidget_init_elements Hp).
        rewrite (@on_dock_same old o (objects self) Hobj). destruct self; reflexivity.
      * apply nth_error_None in Hobj. specialize (Hexist old eq_refl). lia.
    + unfold ParamDock_init, ParamDock_reset.
      now rewrite (ParamWidget_init_elements Hp).
  - intros Hp Hname Hl Hr. subst parameters. unfold add_dock. rewrite Hname. cbn.
    destruct (String.eqb_spec side "left") as [E | _]; [now elim Hl | ].
    destruct (String.eqb_spec side "right") as [E | _]; [now elim Hr | ].
    reflexivity.
Qed.

Lemma add_dock_raises_witness :
  ([UiFloat "kp" gain_ui] <> [] /\
   add_dock "pid" [UiFloat "kp" gain_ui] "left" DockManager_init
     = (DockManager_init, Raised (NameError "_class_map"))) /\
  (leafs_get "pid" (docks DockManager_init) = None /\
   "float"%string <> "left"%string /\ "float"%string <> "right"%string /\
   snd (add_dock "pid" [] "float" DockManager_init) = Raised (UnboundLocalError "dlist")).
Proof.
  assert (Hp : [UiFloat "kp" gain_ui] <> []) by discriminate.
  assert (Hl : "float"%string <> "left"%string) by discriminate.
  assert (Hr : "float"%string <> "right"%string) by discriminate.
  split.
  - split; [exact Hp | ].
    apply (proj1 (add_dock_raises "pid" [UiFloat "kp" gain_ui] "left"
                    DockManager_init) Hp).
    intros old H. discriminate H.
  - split; [reflexivity | ]. split; [exact Hl | ]. split; [exact Hr | ].
    rewrite (proj2 (add_dock_raises "pid" [] "float" DockManager_init)
               eq_refl eq_refl Hl Hr).
    reflexivity.
Defined.

(** ** An active dock on every side with docks *)

Lemma list_remove_nonempty (dock : Dock) (dlist : list Dock) :
  list_remove dock dlist <> [] -> dlist <> [].
Proof. destruct dlist; [intros N; now elim N | discriminate]. Qed.

Lemma app_nonempty (A : Type) (l : list A) (a : A) : l ++ [a] <> [].
Proof. destruct l; discriminate. Qed.

Lemma add_dock_sides_active (name : string) (parameters : list UiElement)
  (side : string) (self : DockManager) :
  sides_active self -> sides_active (fst (add_dock name parameters side self)).
Proof.
  intros [Hl Hr]. unfold add_dock.
  destruct (leafs_get name (docks self)) as [old | ].
  - destruct (nth_error (objects self) old) as [o | ]; [ | now split].
    destruct (ParamDock_reset parameters o) as [o' r]. now split.
  - destruct (ParamDock_init parameters) as [new | e]; [ | now split].
    destruct (String.eqb side "left"); [ | destruct (String.eqb side "right")];
      cbn; split; cbn; try assumption.
    + intros _. destruct (docks_left self) eqn:E; [discriminate | ].
      apply Hl. discriminate.
    + intros _. destruct (docks_right self) eqn:E; [discriminate | ].
      apply Hr. discriminate.
Qed.

Lemma dock_level_changed_sides_active (dock : Dock) (tl : bool) (self : DockManager) :
  sides_active self -> sides_active (fst (dock_level_changed dock tl self)).
Proof.
  intros [Hl Hr]. unfold dock_level_changed.
  destruct tl; [ | now split].
  assert (Hl' : list_remove dock (docks_left self) <> [] -> active_left self <> None)
    by (intros H; apply Hl; now apply list_remove_nonempty in H).
  assert (Hr' : list_remove dock (docks_right self) <> [] -> active_right self <> None)
    by (intros H; apply Hr; now apply list_remove_nonempty in H).
  destruct (dock_in dock (docks_left self));
    [ | destruct (dock_in dock (docks_right self)); [ | now split]];
    (destruct (same_dock (active_left self) dock);
     [ | destruct (same_dock (active_right self) dock)]);
    unfold next_active;
    repeat match goal with
           | |- context [match ?l with [] => _ | _ :: _ => _ end] => destruct l eqn:?
           end;
    cbn; split; cbn; try assumption; try discriminate;
    try (intros N; now elim N);
    try (intros _; apply Hl; congruence);
    try (intros _; apply Hr; congruence);
    try (intros _; apply Hl'; congruence);
    try (intros _; apply Hr'; congruence).
Qed.

Lemma manage_sides_active (op : ManagerOp) (self : DockManager) :
  sides_active self -> sides_active (manage op self).
Proof.
  intros H. destruct op; cbn [manage].
  - now apply add_dock_sides_active.
  - destruct H as [Hl Hr]. unfold remove_dock.
    destruct (dock_in dock (docks_left self)); [now split | ].
    destruct (dock_in dock (docks_right self)); now split.
  - split; intros N; now elim N.
  - now apply dock_level_changed_sides_active.
  - destruct H as [Hl Hr]. unfold dock_location_changed.
    destruct loc; cbn; split; cbn; try assumption; intros _; discriminate.
  - destruct H as [Hl Hr]. unfold dock_user_expanded.
    destruct (dock_is_collapsed dock (objects self)); [ | now split].
    destruct (dock_in dock (docks_left self)).
    + destruct (active_left self) eqn:Ea; cbn; split; cbn; rewrite ?Ea;
        try assumption; intros _; discriminate.
    + destruct (dock_in dock (docks_right self)); [ | now split].
      destruct (active_right self) eqn:Ea; cbn; split; cbn; rewrite ?Ea;
        try assumption; intros _; discriminate.
Qed.

(** X30: from a new manager, after any requests to add docks, to clear and
    after any signals of the docks, raised or not, a side whose list has a
    dock has an active dock; so the slot of a click on a title never fails
    on [self.active_left.collapse()] or [self.active_right.collapse()]. *)
Theorem dock_user_expanded_has_active (ops : list ManagerOp) (dock : Dock) :
  sides_active (manage_all ops DockManager_init) /\
  snd (dock_user_expanded dock (manage_all ops DockManager_init))
    <> Raised (PyExn AttributeError).
Proof.
  assert (H : forall self, sides_active self -> sides_active (manage_all ops self)).
  { induction ops as [ | op rest IH]; intros self Hs; [exact Hs | ].
    apply (IH (manage op self)). now apply manage_sides_active. }
  assert (H0 : sides_active (manage_all ops DockManager_init)).
  { apply H. split; intros N; now elim N. }
  split; [exact H0 | ].
  destruct H0 as [Hl Hr]. unfold dock_user_expanded.
  destruct (dock_is_collapsed dock (objects (manage_all ops DockManager_init)));
    [ | discriminate].
  destruct (dock_in dock (docks_left (manage_all ops DockManager_init))) eqn:El.
  - destruct (active_left (manage_all ops DockManager_init)); [discriminate | ].
    exfalso. apply Hl; [ | reflexivity].
    apply dock_in_spec in El. intros E. rewrite E in El. exact El.
  - destruct (dock_in dock (docks_right (manage_all ops DockManager_init))) eqn:Er;
      [ | discriminate].
    destruct (active_right (manage_all ops DockManager_init)); [discriminate | ].
    exfalso. apply Hr; [ | reflexivity].
    apply dock_in_spec in Er. intros E. rewrite E in Er. exact Er.
Qed.
